(** * Solar zenith angle: a shallow embedding of [modulus/utils/zenith_angle.py]

    The module computes the cosine of the solar zenith angle from an instant
    and a geographic position.  Floating-point numbers are modelled by the
    real numbers of the Standard Library (so the statements below are about
    the formulas in exact arithmetic), Python exceptions by an error monad,
    [datetime.datetime] values by a record of their fields, and numpy arrays
    by the list of their elements in flattened ([ravel]) order. *)

From Stdlib Require Import Reals ZArith List Lra Lia Psatz QArith Qreals Qround.
Import ListNotations.
Open Scope R_scope.

(** ** Python values, exceptions and [datetime] *)

Module Py.

Inductive exn := ValueError | IndexError | TypeError.

Inductive result (A : Type) :=
| Ok (a : A)
| Raise (e : exn).
Arguments Ok {A} a.
Arguments Raise {A} e.

Definition bind {A B} (m : result A) (k : A -> result B) : result B :=
  match m with
  | Ok a => k a
  | Raise e => Raise e
  end.

Fixpoint mapM {A B} (f : A -> result B) (l : list A) : result (list B) :=
  match l with
  | [] => Ok []
  | a :: l' =>
      bind (f a) (fun b => bind (mapM f l') (fun bs => Ok (b :: bs)))
  end.

(** A [datetime.datetime].  [tzinfo] is [None] for a naive value and
    [Some off] for an aware one, [off] being its fixed [utcoffset()] in
    seconds east of UTC; [pytz.utc] is [Some 0]. *)
Record datetime := mkDatetime {
  year : Z; month : Z; day : Z;
  hour : Z; minute : Z; second : Z; microsecond : Z;
  tzinfo : option Z
}.

Definition utc : option Z := Some 0%Z.

(** [datetime.replace(tzinfo=tz)]: the fields are kept, the zone is
    relabelled. *)
Definition replace_tzinfo (d : datetime) (tz : option Z) : datetime :=
  mkDatetime (year d) (month d) (day d) (hour d) (minute d) (second d)
             (microsecond d) tz.

(** Proleptic Gregorian ordinal, as [datetime.toordinal]. *)
Definition _is_leap (y : Z) : bool :=
  ((y mod 4 =? 0) && (negb (y mod 100 =? 0) || (y mod 400 =? 0)))%Z%bool.

Definition _days_before_year (y : Z) : Z :=
  let y := (y - 1)%Z in (y * 365 + y / 4 - y / 100 + y / 400)%Z.

Definition _DAYS_BEFORE_MONTH : list Z :=
  [-1; 0; 31; 59; 90; 120; 151; 181; 212; 243; 273; 304; 334]%Z.

Definition _days_before_month (y m : Z) : Z :=
  (nth (Z.to_nat m) _DAYS_BEFORE_MONTH 0
   + (if (2 <? m) && _is_leap y then 1 else 0))%Z.

Definition _ymd2ord (y m d : Z) : Z :=
  (_days_before_year y + _days_before_month y m + d)%Z.

Definition toordinal (d : datetime) : Z :=
  _ymd2ord (year d) (month d) (day d).

(** A [timedelta] is represented by its value in microseconds. *)
Definition timedelta (days seconds microseconds : Z) : Z :=
  ((days * 86400 + seconds) * 1000000 + microseconds)%Z.

(** [datetime.__sub__] on two datetimes. *)
Definition datetime_sub (a b : datetime) : result Z :=
  let secs1 := (second a + minute a * 60 + hour a * 3600)%Z in
  let secs2 := (second b + minute b * 60 + hour b * 3600)%Z in
  let base := timedelta (toordinal a - toordinal b) (secs1 - secs2)
                        (microsecond a - microsecond b) in
  match tzinfo a, tzinfo b with
  | None, None => Ok base
  | Some myoff, Some otoff =>
      Ok (base + timedelta 0 otoff 0 - timedelta 0 myoff 0)%Z
  | _, _ => Raise TypeError
  end.

(** The fields a [datetime] can hold (its constructor rejects the rest). *)
Definition days_in_month (y m : Z) : Z :=
  if (m =? 2)%Z then (if _is_leap y then 29 else 28)%Z
  else if ((m =? 4) || (m =? 6) || (m =? 9) || (m =? 11))%Z%bool then 30%Z
  else 31%Z.

Definition valid (d : datetime) : Prop :=
  (1 <= year d <= 9999 /\ 1 <= month d <= 12 /\
   1 <= day d <= days_in_month (year d) (month d) /\
   0 <= hour d < 24 /\ 0 <= minute d < 60 /\ 0 <= second d < 60 /\
   0 <= microsecond d < 1000000 /\
   match tzinfo d with
   | None => True
   | Some off => -86400 < off < 86400
   end)%Z.

(** Microseconds between 0001-01-01T00:00:00 and the wall-clock fields. *)
Definition wall_clock_us (d : datetime) : Z :=
  timedelta (toordinal d)
            (second d + minute d * 60 + hour d * 3600) (microsecond d).

Definition offset_seconds (d : datetime) : Z :=
  match tzinfo d with
  | Some off => off
  | None => 0%Z
  end.

Definition _EPOCH : datetime := mkDatetime 1970 1 1 0 0 0 0 utc.

(** Seconds since the UNIX epoch of the instant a datetime denotes,
    [(d - _EPOCH).total_seconds()] for an aware [d]; a naive [d] is read
    as UTC, the convention of this module. *)
Definition epoch_seconds (d : datetime) : R :=
  IZR (wall_clock_us d - timedelta 0 (offset_seconds d) 0
       - wall_clock_us _EPOCH) / 1000000.

(** The values that reach the time argument. *)
Inductive value :=
| Datetime (d : datetime)
| Float (x : R)
| Int (n : Z).

Inductive type := datetime_t | float64_t | int64_t.

Definition type_of (v : value) : type :=
  match v with
  | Datetime _ => datetime_t
  | Float _ => float64_t
  | Int _ => int64_t
  end.

Definition is_datetime (v : value) : bool :=
  match v with
  | Datetime _ => true
  | _ => false
  end.

End Py.

Notation "x <- m ;; k" := (Py.bind m (fun x => k))
  (at level 61, m at next level, right associativity).

(** ** numpy *)

Module Np.

(** An array argument: a Python scalar (a 0-d array once through
    [np.asarray]) or an array, given by its elements in [ravel] order. *)
Inductive ndarray (A : Type) :=
| Scalar (a : A)
| Array (l : list A).
Arguments Scalar {A} a.
Arguments Array {A} l.

Definition ravel {A} (x : ndarray A) : list A :=
  match x with
  | Scalar a => [a]
  | Array l => l
  end.

Definition map {A B} (f : A -> B) (x : ndarray A) : ndarray B :=
  match x with
  | Scalar a => Scalar (f a)
  | Array l => Array (List.map f l)
  end.

Definition mapM {A B} (f : A -> Py.result B) (x : ndarray A)
  : Py.result (ndarray B) :=
  match x with
  | Scalar a => b <- f a ;; Py.Ok (Scalar b)
  | Array l => bs <- Py.mapM f l ;; Py.Ok (Array bs)
  end.

Definition deg2rad (x : R) : R := x * (PI / 180).

(** [x % m], the remainder that takes the sign of the divisor. *)
Definition mod_ (x m : R) : R := x - m * IZR (Int_part (x / m)).

(** [np.arctan2(y, x)]. *)
Definition arctan2 (y x : R) : R :=
  if Rlt_dec 0 x then atan (y / x)
  else if Rlt_dec x 0 then
    (if Rle_dec 0 y then atan (y / x) + PI else atan (y / x) - PI)
  else if Rlt_dec 0 y then PI / 2
  else if Rlt_dec y 0 then - (PI / 2)
  else 0.

End Np.

(** ** The module [zenith_angle] *)

Definition REFERENCE_2000 : Py.datetime :=
  Py.mkDatetime 2000 1 1 12 0 0 0 Py.utc.

Definition TIMESTAMP_2000 : R := Py.epoch_seconds REFERENCE_2000.

Definition _total_days (time_diff : Np.ndarray Z) : Np.ndarray R :=
  Np.map (fun us => IZR us / IZR (Py.timedelta 1 0 0)) time_diff.

(** Lines 121-122: a scalar [datetime] is relabelled as UTC. *)
Definition relabel_utc (model_time : Np.ndarray Py.value)
  : Np.ndarray Py.value :=
  match model_time with
  | Np.Scalar (Py.Datetime d) =>
      Np.Scalar (Py.Datetime (Py.replace_tzinfo d Py.utc))
  | _ => model_time
  end.

(** Line 124: [type(np.asarray(model_time).ravel()[0])]. *)
Definition first_date_type (model_time : Np.ndarray Py.value)
  : Py.result Py.type :=
  match Np.ravel model_time with
  | [] => Py.Raise Py.IndexError
  | v :: _ => Py.Ok (Py.type_of v)
  end.

(** Lines 125-129: the guard on that type. *)
Definition check_date_type (date_type : Py.type) : Py.result unit :=
  match date_type with
  | Py.datetime_t => Py.Ok tt
  | _ => Py.Raise Py.ValueError
  end.

(** Line 130: one element minus the aware reference. *)
Definition minus_reference (v : Py.value) : Py.result Z :=
  match v with
  | Py.Datetime d => Py.datetime_sub d REFERENCE_2000
  | _ => Py.Raise Py.TypeError
  end.

Definition _days_from_2000 (model_time : Np.ndarray Py.value)
  : Py.result (Np.ndarray R) :=
  let model_time := relabel_utc model_time in
  date_type <- first_date_type model_time ;;
  _ <- check_date_type date_type ;;
  time_diff <- Np.mapM minus_reference model_time ;;
  Py.Ok (_total_days time_diff).

Definition _datetime_to_julian_century (time : Np.ndarray Py.value)
  : Py.result (Np.ndarray R) :=
  days <- _days_from_2000 time ;;
  Py.Ok (Np.map (fun d => d / 36525.0) days).

Definition _timestamp_to_julian_century (timestamp : R) : R :=
  let seconds_in_day := 86400 in
  let days_in_julian_century := 36525.0 in
  (timestamp - TIMESTAMP_2000) / days_in_julian_century / seconds_in_day.

Definition gmst_theta (jul_centuries : R) : R :=
  67310.54841 + jul_centuries *
    (876600 * 3600 + 8640184.812866
     + jul_centuries * (0.093104 - jul_centuries * 6.2 * 10e-6)).

Definition _greenwich_mean_sidereal_time (jul_centuries : R) : R :=
  let theta := gmst_theta jul_centuries in
  Np.mod_ (Np.deg2rad (theta / 240.0)) (2 * PI).

Definition _local_mean_sidereal_time (julian_centuries longitude : R) : R :=
  _greenwich_mean_sidereal_time julian_centuries + longitude.

Definition _sun_ecliptic_longitude (julian_centuries : R) : R :=
  let mean_anomaly :=
    Np.deg2rad
      (357.52910 + 35999.05030 * julian_centuries
       - 0.0001559 * julian_centuries * julian_centuries
       - 0.00000048 * julian_centuries * julian_centuries * julian_centuries)
  in
  let mean_longitude :=
    Np.deg2rad
      (280.46645 + 36000.76983 * julian_centuries
       + 0.0003032 * (julian_centuries ^ 2))
  in
  let d_l :=
    Np.deg2rad
      ((1.914600 - 0.004817 * julian_centuries
        - 0.000014 * (julian_centuries ^ 2)) * sin mean_anomaly
       + (0.019993 - 0.000101 * julian_centuries) * sin (2 * mean_anomaly)
       + 0.000290 * sin (3 * mean_anomaly))
  in
  mean_longitude + d_l.

Definition _obliquity_star (julian_centuries : R) : R :=
  Np.deg2rad
    (23.0 + 26.0 / 60 + 21.406 / 3600.0
     - (46.836769 * julian_centuries
        - 0.0001831 * (julian_centuries ^ 2)
        + 0.00200340 * (julian_centuries ^ 3)
        - 0.576e-6 * (julian_centuries ^ 4)
        - 4.34e-8 * (julian_centuries ^ 5)) / 3600.0).

(** The local variables [x], [y], [z] and [r] of
    [_right_ascension_declination]. *)
Definition sun_x (julian_centuries : R) : R :=
  cos (_sun_ecliptic_longitude julian_centuries).

Definition sun_y (julian_centuries : R) : R :=
  cos (_obliquity_star julian_centuries)
  * sin (_sun_ecliptic_longitude julian_centuries).

Definition sun_z (julian_centuries : R) : R :=
  sin (_obliquity_star julian_centuries)
  * sin (_sun_ecliptic_longitude julian_centuries).

Definition sun_r (julian_centuries : R) : R :=
  sqrt (1.0 - sun_z julian_centuries * sun_z julian_centuries).

Definition _right_ascension_declination (julian_centuries : R) : R * R :=
  let x := sun_x julian_centuries in
  let y := sun_y julian_centuries in
  let z := sun_z julian_centuries in
  let r := sun_r julian_centuries in
  let declination := Np.arctan2 z r in
  let right_ascension := 2 * Np.arctan2 y (x + r) in
  (right_ascension, declination).

Definition _local_hour_angle (julian_centuries longitude right_ascension : R)
  : R :=
  _local_mean_sidereal_time julian_centuries longitude - right_ascension.

Definition _star_cos_zenith (julian_centuries lon lat : R) : R :=
  let (ra, dec) := _right_ascension_declination julian_centuries in
  let h_angle := _local_hour_angle julian_centuries lon ra in
  let cosine_zenith :=
    sin lat * sin dec + cos lat * cos dec * cos h_angle in
  cosine_zenith.

(** The public entry points, for a scalar [lon] and a scalar [lat] in
    degrees (the source also broadcasts arrays of them).  The conversion to
    radians is exact here; the source rounds it to single precision. *)
Definition cos_zenith_angle (time : Np.ndarray Py.value) (lon lat : R)
  : Py.result (Np.ndarray R) :=
  let lon_rad := Np.deg2rad lon in
  let lat_rad := Np.deg2rad lat in
  julian_centuries <- _datetime_to_julian_century time ;;
  Py.Ok (Np.map (fun c => _star_cos_zenith c lon_rad lat_rad)
                julian_centuries).

Definition cos_zenith_angle_from_timestamp (timestamp lon lat : R) : R :=
  let lon_rad := Np.deg2rad lon in
  let lat_rad := Np.deg2rad lat in
  let julian_centuries := _timestamp_to_julian_century timestamp in
  _star_cos_zenith julian_centuries lon_rad lat_rad.

(** ** Instants used in the examples *)

(** The naive timestamp [datetime(2002, 1, 1, 12, 0, 0)] and its Julian
    century. *)
Definition noon_2002 : Py.datetime := Py.mkDatetime 2002 1 1 12 0 0 0 None.

Definition century_2002 : R := 731 / 36525.

(** Noon at the reference date on a clock twelve hours ahead of UTC, and
    the same instant on a UTC clock. *)
Definition noon_2000_plus12 : Py.datetime :=
  Py.mkDatetime 2000 1 1 12 0 0 0 (Some 43200%Z).

Definition midnight_2000_utc : Py.datetime :=
  Py.mkDatetime 2000 1 1 0 0 0 0 Py.utc.

(** An aware [datetime.datetime]: one that carries a UTC offset. *)
Definition is_aware (v : Py.value) : bool :=
  match v with
  | Py.Datetime d =>
      match Py.tzinfo d with
      | Some _ => true
      | None => false
      end
  | _ => false
  end.

(** ** Interval arithmetic on rationals

    Enclosures of real numbers between two rationals, rounded outwards to a
    fixed denominator; they are used to evaluate the formulas at given
    instants. *)

Module Interval.

(** Outward rounding to a fixed denominator. *)
Definition precision : positive := 100000000000000.

Definition round_down (q : Q) : Q :=
  Qfloor (q * inject_Z (Zpos precision)) # precision.

Definition round_up (q : Q) : Q :=
  Qceiling (q * inject_Z (Zpos precision)) # precision.

Record t := make { lo : Q; hi : Q }.

Definition contains (i : t) (x : R) : Prop := Q2R (lo i) <= x <= Q2R (hi i).

Definition qmin (a b : Q) : Q := if Qle_bool a b then a else b.
Definition qmax (a b : Q) : Q := if Qle_bool a b then b else a.

Definition const (q : Q) : t := make q q.

Definition iadd (a b : t) : t :=
  make (round_down (lo a + lo b)) (round_up (hi a + hi b)).

Definition iopp (a : t) : t := make (- hi a) (- lo a).

Definition isub (a b : t) : t :=
  make (round_down (lo a - hi b)) (round_up (hi a - lo b)).

Definition imul (a b : t) : t :=
  let p1 := (lo a * lo b)%Q in
  let p2 := (lo a * hi b)%Q in
  let p3 := (hi a * lo b)%Q in
  let p4 := (hi a * hi b)%Q in
  make (round_down (qmin (qmin p1 p2) (qmin p3 p4)))
       (round_up (qmax (qmax p1 p2) (qmax p3 p4))).

Definition is_positive (a : t) : bool := negb (Qle_bool (lo a) 0).

(** Reciprocal of an interval of positive numbers. *)
Definition iinv (a : t) : t := make (/ hi a) (/ lo a).

Definition idiv (a b : t) : t := imul a (iinv b).

Fixpoint ipow (a : t) (n : nat) : t :=
  match n with
  | O => const 1
  | S n' => imul a (ipow a n')
  end.

(** [PI] by the Machin-like formula [PI/4 = 2 atan(1/3) + atan(1/7)]. *)
Fixpoint qpow (q : Q) (n : nat) : Q :=
  match n with
  | O => 1%Q
  | S n' => (q * qpow q n')%Q
  end.

Fixpoint qsum (f : nat -> Q) (n : nat) : Q :=
  match n with
  | O => f O
  | S n' => (qsum f n' + f n)%Q
  end.

Definition atan_term (q : Q) (n : nat) : Q :=
  (qpow q (2 * n + 1) / inject_Z (Z.of_nat (2 * n + 1)))%Q.

Definition machin_term (i : nat) : Q :=
  (qpow (-1) i * (2 * atan_term (1 # 3) i + atan_term (1 # 7) i))%Q.

Definition machin_rank : nat := 8.

Definition ipi : t :=
  Eval vm_compute in
    make (round_down (4 * qsum machin_term (S (2 * machin_rank))))
         (round_up (4 * qsum machin_term (2 * machin_rank))).

Definition recip (p : positive) : t :=
  make (round_down (1 # p)) (round_up (1 # p)).

(** Partial sums of the sine series at a point, term by term. *)
Fixpoint sin_series (a2 : t) (n : nat) (i : nat) (term acc : t) : t :=
  match n with
  | O => acc
  | S n' =>
      let d := Pos.of_nat ((2 * i + 2) * (2 * i + 3)) in
      let term' := iopp (imul (imul term a2) (recip d)) in
      sin_series a2 n' (S i) term' (iadd acc term')
  end.

Definition sin_partial (m : Q) (n : nat) : t :=
  let a := const m in
  sin_series (imul a a) n 0 a a.

Definition sin_rank : nat := 5.

(** The sine at a rational point of [[-4, 4]], from the partial sums of
    ranks [2 * n + 1] and [2 * (n + 1)]. *)
Definition sin_point_rank (n : nat) (m : Q) : t :=
  if Qle_bool 0 m && Qle_bool m 4 then
    make (lo (sin_partial m (2 * n + 1)))
         (hi (sin_partial m (2 * (n + 1))))
  else if Qle_bool (-4) m && Qle_bool m 0 then
    make (- hi (sin_partial (- m) (2 * (n + 1))))
         (- lo (sin_partial (- m) (2 * n + 1)))
  else make (-1) 1.

Definition sin_point (m : Q) : t := sin_point_rank sin_rank m.

(** Number of turns to take off an angle. *)
Definition turns (a : t) : Z :=
  Qfloor (lo a / (2 * lo ipi) + (1 # 2)).

Definition isin (a : t) : t :=
  let k := turns a in
  let a' := isub a (imul (const (inject_Z (2 * k))) ipi) in
  let m := ((lo a' + hi a') * (1 # 2))%Q in
  let w := qmax (hi a' - m) (m - lo a') in
  let s := sin_point m in
  make (round_down (lo s - w)) (round_up (hi s + w)).

Definition icos (a : t) : t :=
  isin (iadd a (idiv ipi (const (inject_Z 2)))).

Definition within (i : t) (l u : Q) : bool :=
  Qle_bool l (lo i) && Qle_bool (hi i) u.

End Interval.

(** ** First checks *)

Example days_2002 :
  _days_from_2000
    (Np.Scalar (Py.Datetime (Py.mkDatetime 2002 1 1 12 0 0 0 None)))
  = Py.Ok (Np.Scalar (IZR 63158400000000 / IZR 86400000000)).
Proof. reflexivity. Qed.

Lemma TIMESTAMP_2000_value : TIMESTAMP_2000 = 946728000.
Proof.
  unfold TIMESTAMP_2000, Py.epoch_seconds.
  replace (Py.wall_clock_us REFERENCE_2000
           - Py.timedelta 0 (Py.offset_seconds REFERENCE_2000) 0
           - Py.wall_clock_us Py._EPOCH)%Z
    with 946728000000000%Z by reflexivity.
  lra.
Qed.

(** ** The remainder and the two-argument arctangent *)

Lemma mod_range (x m : R) : 0 < m -> 0 <= Np.mod_ x m < m.
Proof.
  intros Hm. unfold Np.mod_.
  destruct (base_Int_part (x / m)) as [Hle Hgt].
  assert (Hx : x = m * (x / m)) by (field; lra).
  set (k := IZR (Int_part (x / m))) in *.
  split.
  - assert (m * k <= m * (x / m)) by (apply Rmult_le_compat_l; lra). lra.
  - assert (m * (x / m - 1) < m * k) by (apply Rmult_lt_compat_l; lra). lra.
Qed.

Lemma mod_shift (x m : R) : exists k : Z, Np.mod_ x m = x - IZR k * m.
Proof. exists (Int_part (x / m)). unfold Np.mod_. ring. Qed.

Lemma arctan2_right_half (y x : R) :
  0 <= x -> - (PI / 2) <= Np.arctan2 y x <= PI / 2.
Proof.
  intros Hx. unfold Np.arctan2. pose proof PI_RGT_0 as Hpi.
  destruct (Rlt_dec 0 x).
  - pose proof (atan_bound (y / x)). lra.
  - destruct (Rlt_dec x 0); [lra|].
    destruct (Rlt_dec 0 y); [lra|].
    destruct (Rlt_dec y 0); lra.
Qed.

Lemma arctan2_pos (y x : R) :
  0 < x -> - (PI / 2) < Np.arctan2 y x < PI / 2.
Proof.
  intros Hx. unfold Np.arctan2.
  destruct (Rlt_dec 0 x); [|lra].
  pose proof (atan_bound (y / x)). lra.
Qed.

Lemma arctan2_origin : Np.arctan2 0 0 = 0.
Proof.
  unfold Np.arctan2.
  repeat (destruct (Rlt_dec _ _); try lra).
Qed.

(** ** The unit vector of the sun *)

Lemma sun_sphere (c : R) :
  sun_x c * sun_x c + sun_y c * sun_y c + sun_z c * sun_z c = 1.
Proof.
  unfold sun_x, sun_y, sun_z.
  pose proof (sin2_cos2 (_sun_ecliptic_longitude c)) as H1.
  pose proof (sin2_cos2 (_obliquity_star c)) as H2.
  unfold Rsqr in *. nra.
Qed.

Lemma sun_z_bound (c : R) : Rabs (sun_z c) <= 1.
Proof.
  pose proof (sun_sphere c).
  apply Rabs_le. split; nra.
Qed.

Lemma sun_r_sqr (c : R) :
  sun_r c * sun_r c = sun_x c * sun_x c + sun_y c * sun_y c.
Proof.
  unfold sun_r. pose proof (sun_sphere c).
  rewrite sqrt_sqrt; nra.
Qed.

Lemma sun_r_nonneg (c : R) : 0 <= sun_r c.
Proof. apply sqrt_pos. Qed.

Lemma sun_r_dominates (c : R) : 0 <= sun_x c + sun_r c.
Proof.
  pose proof (sun_r_sqr c). pose proof (sun_r_nonneg c). nra.
Qed.

Lemma sun_y_zero_on_axis (c : R) : sun_x c + sun_r c = 0 -> sun_y c = 0.
Proof.
  intros H. pose proof (sun_r_sqr c).
  assert (Hr : sun_r c = - sun_x c) by lra.
  rewrite Hr in *. nra.
Qed.

(** ** The spherical law of cosines *)

Lemma law_of_cosines_bound (lat dec h : R) :
  -1 <= sin lat * sin dec + cos lat * cos dec * cos h <= 1.
Proof.
  pose proof (sin2_cos2 lat) as Hl. pose proof (sin2_cos2 dec) as Hd.
  pose proof (COS_bound h) as [Hh1 Hh2]. unfold Rsqr in *.
  assert (Hc : 0 <= cos dec * cos dec * (1 - cos h * cos h)).
  { apply Rmult_le_pos; [apply Rle_0_sqr | nra]. }
  split.
  - pose proof (Rle_0_sqr (sin lat + sin dec)).
    pose proof (Rle_0_sqr (cos lat + cos dec * cos h)).
    unfold Rsqr in *. nra.
  - pose proof (Rle_0_sqr (sin lat - sin dec)).
    pose proof (Rle_0_sqr (cos lat - cos dec * cos h)).
    unfold Rsqr in *. nra.
Qed.

Lemma star_cos_zenith_unfold (c lon lat : R) :
  _star_cos_zenith c lon lat
  = sin lat * sin (snd (_right_ascension_declination c))
    + cos lat * cos (snd (_right_ascension_declination c))
      * cos (_local_mean_sidereal_time c lon
             - fst (_right_ascension_declination c)).
Proof. reflexivity. Qed.

Lemma star_cos_zenith_bound (c lon lat : R) :
  -1 <= _star_cos_zenith c lon lat <= 1.
Proof. rewrite star_cos_zenith_unfold. apply law_of_cosines_bound. Qed.

(** ** The time normaliser *)

Lemma base_delta (a b : Py.datetime) :
  Py.timedelta (Py.toordinal a - Py.toordinal b)
    (Py.second a + Py.minute a * 60 + Py.hour a * 3600
     - (Py.second b + Py.minute b * 60 + Py.hour b * 3600))
    (Py.microsecond a - Py.microsecond b)
  = (Py.wall_clock_us a - Py.wall_clock_us b)%Z.
Proof. unfold Py.wall_clock_us, Py.timedelta. ring. Qed.

Lemma wall_clock_relabel (d : Py.datetime) (tz : option Z) :
  Py.wall_clock_us (Py.replace_tzinfo d tz) = Py.wall_clock_us d.
Proof. reflexivity. Qed.

Lemma datetime_sub_aware (d : Py.datetime) (off : Z) :
  Py.tzinfo d = Some off ->
  Py.datetime_sub d REFERENCE_2000
  = Py.Ok (Py.wall_clock_us d - off * 1000000
           - Py.wall_clock_us REFERENCE_2000)%Z.
Proof.
  intros H. unfold Py.datetime_sub. rewrite H, base_delta.
  cbn [Py.tzinfo REFERENCE_2000 Py.utc]. f_equal.
  unfold Py.timedelta. ring.
Qed.

Lemma days_from_2000_scalar (d : Py.datetime) :
  _days_from_2000 (Np.Scalar (Py.Datetime d))
  = Py.Ok (Np.Scalar
             (IZR (Py.wall_clock_us d - Py.wall_clock_us REFERENCE_2000)
              / IZR 86400000000)).
Proof.
  unfold _days_from_2000. cbn [relabel_utc first_date_type Np.ravel
    Py.type_of check_date_type Py.bind Np.mapM minus_reference].
  rewrite (datetime_sub_aware _ 0) by reflexivity.
  cbn [Py.bind _total_days Np.map]. rewrite wall_clock_relabel.
  do 3 f_equal. f_equal. ring.
Qed.

Lemma julian_century_scalar (d : Py.datetime) :
  _datetime_to_julian_century (Np.Scalar (Py.Datetime d))
  = Py.Ok (Np.Scalar
             (IZR (Py.wall_clock_us d - Py.wall_clock_us REFERENCE_2000)
              / IZR 86400000000 / 36525.0)).
Proof.
  unfold _datetime_to_julian_century. rewrite days_from_2000_scalar.
  reflexivity.
Qed.

Lemma timestamp_julian_century (d : Py.datetime) :
  _timestamp_to_julian_century
    (Py.epoch_seconds d + IZR (Py.offset_seconds d))
  = IZR (Py.wall_clock_us d - Py.wall_clock_us REFERENCE_2000)
    / IZR 86400000000 / 36525.0.
Proof.
  unfold _timestamp_to_julian_century, TIMESTAMP_2000, Py.epoch_seconds.
  replace (Py.timedelta 0 (Py.offset_seconds REFERENCE_2000) 0) with 0%Z
    by reflexivity.
  unfold Py.timedelta.
  rewrite !minus_IZR, !plus_IZR, !mult_IZR, !plus_IZR, !mult_IZR.
  field. lra.
Qed.

Lemma cos_zenith_angle_scalar (d : Py.datetime) (lon lat : R) :
  cos_zenith_angle (Np.Scalar (Py.Datetime d)) lon lat
  = Py.Ok (Np.Scalar
             (cos_zenith_angle_from_timestamp
                (Py.epoch_seconds d + IZR (Py.offset_seconds d)) lon lat)).
Proof.
  unfold cos_zenith_angle, cos_zenith_angle_from_timestamp.
  rewrite julian_century_scalar, timestamp_julian_century. reflexivity.
Qed.

(** ** The type guard *)

Lemma minus_reference_raises (v : Py.value) (e : Py.exn) :
  minus_reference v = Py.Raise e -> e = Py.TypeError.
Proof.
  destruct v as [d| |]; cbn; try congruence.
  unfold Py.datetime_sub. destruct (Py.tzinfo d); cbn; congruence.
Qed.

Lemma mapM_minus_reference_raises (l : list Py.value) (e : Py.exn) :
  Py.mapM minus_reference l = Py.Raise e -> e = Py.TypeError.
Proof.
  induction l as [|v l IH]; cbn; [congruence|].
  destruct (minus_reference v) eqn:Hv; cbn.
  - destruct (Py.mapM minus_reference l); cbn; [congruence|].
    intros H. apply IH. congruence.
  - intros H. apply (minus_reference_raises v). congruence.
Qed.

Lemma days_from_2000_array_head (d : Py.datetime) (rest : list Py.value) :
  _days_from_2000 (Np.Array (Py.Datetime d :: rest))
  = (time_diff <- Py.mapM minus_reference (Py.Datetime d :: rest) ;;
     Py.Ok (_total_days (Np.Array time_diff))).
Proof.
  unfold _days_from_2000.
  cbn [relabel_utc first_date_type Np.ravel Py.type_of check_date_type
       Py.bind Np.mapM].
  destruct (Py.mapM minus_reference (Py.Datetime d :: rest)); reflexivity.
Qed.

Lemma days_from_2000_ValueError (t : Np.ndarray Py.value) :
  _days_from_2000 t = Py.Raise Py.ValueError <->
  exists v rest, Np.ravel t = v :: rest /\ Py.is_datetime v = false.
Proof.
  destruct t as [v|l].
  - destruct v as [d| |].
    + rewrite days_from_2000_scalar. split; [discriminate|].
      intros (v & rest & Hr & Hv). cbn in Hr. inversion Hr; subst.
      discriminate.
    + split; [|reflexivity]. intros _. now exists (Py.Float x), [].
    + split; [|reflexivity]. intros _. now exists (Py.Int n), [].
  - destruct l as [|v rest].
    + split; [discriminate|]. intros (v & rest & Hr & _). discriminate.
    + destruct v as [d| |].
      * rewrite days_from_2000_array_head. split.
        -- destruct (Py.mapM minus_reference (Py.Datetime d :: rest)) eqn:Hm;
             cbn; [discriminate|].
           intros H. apply mapM_minus_reference_raises in Hm. congruence.
        -- intros (v & rest' & Hr & Hv). cbn in Hr. inversion Hr; subst.
           discriminate.
      * split; [|reflexivity]. intros _. now exists (Py.Float x), rest.
      * split; [|reflexivity]. intros _. now exists (Py.Int n), rest.
Qed.

Lemma cos_zenith_angle_raises (t : Np.ndarray Py.value) (lon lat : R)
  (e : Py.exn) :
  cos_zenith_angle t lon lat = Py.Raise e <-> _days_from_2000 t = Py.Raise e.
Proof.
  unfold cos_zenith_angle, _datetime_to_julian_century.
  destruct (_days_from_2000 t); cbn; split; congruence.
Qed.

(** ** Soundness of the interval operations *)

Module IntervalFacts.
Import Interval.

Lemma Q2R_inject_Z (z : Z) : Q2R (inject_Z z) = IZR z.
Proof. unfold Q2R, inject_Z. cbn [Qnum Qden]. rewrite Rinv_1. ring. Qed.

Lemma precision_pos : 0 < IZR (Zpos precision).
Proof. apply IZR_lt. reflexivity. Qed.

Lemma round_down_le (q : Q) : Q2R (round_down q) <= Q2R q.
Proof.
  pose proof (Qfloor_le (q * inject_Z (Zpos precision))) as H.
  apply Qle_Rle in H. rewrite Q2R_mult, !Q2R_inject_Z in H.
  unfold round_down, Q2R at 1. cbn [Qnum Qden].
  pose proof precision_pos as Hp.
  apply (Rmult_le_reg_r (IZR (Zpos precision))); [exact Hp|].
  rewrite Rmult_assoc, Rinv_l by lra. lra.
Qed.

Lemma round_up_ge (q : Q) : Q2R q <= Q2R (round_up q).
Proof.
  pose proof (Qle_ceiling (q * inject_Z (Zpos precision))) as H.
  apply Qle_Rle in H. rewrite Q2R_mult, !Q2R_inject_Z in H.
  unfold round_up, Q2R at 2. cbn [Qnum Qden].
  pose proof precision_pos as Hp.
  apply (Rmult_le_reg_r (IZR (Zpos precision))); [exact Hp|].
  rewrite Rmult_assoc, Rinv_l by lra. lra.
Qed.

Lemma qmin_le (a b : Q) :
  Q2R (qmin a b) <= Q2R a /\ Q2R (qmin a b) <= Q2R b.
Proof.
  unfold qmin. destruct (Qle_bool a b) eqn:E.
  - apply Qle_bool_iff, Qle_Rle in E. lra.
  - assert (H : (b < a)%Q).
    { apply Qnot_le_lt. intros H. apply Qle_bool_iff in H. congruence. }
    apply Qlt_Rlt in H. lra.
Qed.

Lemma qmax_ge (a b : Q) :
  Q2R a <= Q2R (qmax a b) /\ Q2R b <= Q2R (qmax a b).
Proof.
  unfold qmax. destruct (Qle_bool a b) eqn:E.
  - apply Qle_bool_iff, Qle_Rle in E. lra.
  - assert (H : (b < a)%Q).
    { apply Qnot_le_lt. intros H. apply Qle_bool_iff in H. congruence. }
    apply Qlt_Rlt in H. lra.
Qed.

Lemma contains_const (q : Q) : contains (const q) (Q2R q).
Proof. unfold contains. cbn. lra. Qed.

Lemma contains_IZR (z : Z) : contains (const (inject_Z z)) (IZR z).
Proof. rewrite <- Q2R_inject_Z. apply contains_const. Qed.

Lemma contains_add a b x y :
  contains a x -> contains b y -> contains (iadd a b) (x + y).
Proof.
  unfold contains, iadd. cbn [lo hi]. intros Hx Hy.
  pose proof (round_down_le (lo a + lo b)) as H1.
  pose proof (round_up_ge (hi a + hi b)) as H2.
  rewrite Q2R_plus in H1, H2. lra.
Qed.

Lemma contains_opp a x : contains a x -> contains (iopp a) (- x).
Proof.
  unfold contains, iopp. cbn [lo hi]. rewrite !Q2R_opp. lra.
Qed.

Lemma contains_sub a b x y :
  contains a x -> contains b y -> contains (isub a b) (x - y).
Proof.
  unfold contains, isub. cbn [lo hi]. intros Hx Hy.
  pose proof (round_down_le (lo a - hi b)) as H1.
  pose proof (round_up_ge (hi a - lo b)) as H2.
  rewrite Q2R_minus in H1, H2. lra.
Qed.

Lemma product_lower (a b c d x y m : R) :
  a <= x <= b -> c <= y <= d ->
  m <= a * c -> m <= a * d -> m <= b * c -> m <= b * d -> m <= x * y.
Proof.
  intros Hx Hy H1 H2 H3 H4.
  destruct (Rle_dec 0 y); [destruct (Rle_dec 0 a) | destruct (Rle_dec 0 b)];
    nra.
Qed.

Lemma product_upper (a b c d x y m : R) :
  a <= x <= b -> c <= y <= d ->
  a * c <= m -> a * d <= m -> b * c <= m -> b * d <= m -> x * y <= m.
Proof.
  intros Hx Hy H1 H2 H3 H4.
  destruct (Rle_dec 0 y); [destruct (Rle_dec 0 b) | destruct (Rle_dec 0 a)];
    nra.
Qed.

Lemma contains_mul a b x y :
  contains a x -> contains b y -> contains (imul a b) (x * y).
Proof.
  unfold contains, imul. cbn [lo hi]. intros Hx Hy. split.
  - eapply Rle_trans; [apply round_down_le|].
    destruct (qmin_le (qmin (lo a * lo b) (lo a * hi b))
                      (qmin (hi a * lo b) (hi a * hi b))) as [H1 H2].
    destruct (qmin_le (lo a * lo b) (lo a * hi b)) as [H3 H4].
    destruct (qmin_le (hi a * lo b) (hi a * hi b)) as [H5 H6].
    rewrite Q2R_mult in H3, H4, H5, H6.
    apply (product_lower _ _ _ _ _ _ _ Hx Hy); lra.
  - eapply Rle_trans; [|apply round_up_ge].
    destruct (qmax_ge (qmax (lo a * lo b) (lo a * hi b))
                      (qmax (hi a * lo b) (hi a * hi b))) as [H1 H2].
    destruct (qmax_ge (lo a * lo b) (lo a * hi b)) as [H3 H4].
    destruct (qmax_ge (hi a * lo b) (hi a * hi b)) as [H5 H6].
    rewrite Q2R_mult in H3, H4, H5, H6.
    apply (product_upper _ _ _ _ _ _ _ Hx Hy); lra.
Qed.

Lemma is_positive_lo a : is_positive a = true -> 0 < Q2R (lo a).
Proof.
  unfold is_positive. intros H. apply Bool.negb_true_iff in H.
  assert (Hlt : (0 < lo a)%Q).
  { apply Qnot_le_lt. intros Hle. apply Qle_bool_iff in Hle. congruence. }
  apply Qlt_Rlt in Hlt. now rewrite RMicromega.Q2R_0 in Hlt.
Qed.

Lemma contains_inv a x :
  is_positive a = true -> contains a x -> contains (iinv a) (/ x).
Proof.
  unfold contains, iinv. cbn [lo hi]. intros Hpos [Hl Hh].
  apply is_positive_lo in Hpos.
  assert (Hlo : ~ (lo a == 0)%Q).
  { intros E. apply Qeq_eqR in E. rewrite RMicromega.Q2R_0 in E. lra. }
  assert (Hhi : ~ (hi a == 0)%Q).
  { intros E. apply Qeq_eqR in E. rewrite RMicromega.Q2R_0 in E. lra. }
  rewrite !Q2R_inv by assumption.
  split; apply Rinv_le_contravar; lra.
Qed.

Lemma contains_div a b x y :
  contains a x -> contains b y -> is_positive b = true ->
  contains (idiv a b) (x / y).
Proof.
  intros Hx Hy Hpos. unfold idiv, Rdiv.
  apply contains_mul; [exact Hx|]. now apply contains_inv.
Qed.

Lemma contains_pow a x (n : nat) :
  contains a x -> contains (ipow a n) (x ^ n).
Proof.
  intros Hx. induction n as [|n IH]; cbn [ipow pow].
  - replace 1 with (Q2R 1) by apply RMicromega.Q2R_1. apply contains_const.
  - now apply contains_mul.
Qed.


(** *** [PI] *)

Lemma Q2R_qpow (q : Q) (n : nat) : Q2R (qpow q n) = Q2R q ^ n.
Proof.
  induction n as [|n IH]; cbn [qpow pow].
  - apply RMicromega.Q2R_1.
  - now rewrite Q2R_mult, IH.
Qed.

Lemma Q2R_qsum (f : nat -> Q) (g : nat -> R) (n : nat) :
  (forall i, Q2R (f i) = g i) -> Q2R (qsum f n) = sum_f_R0 g n.
Proof.
  intros H. induction n as [|n IH]; cbn [qsum sum_f_R0].
  - apply H.
  - now rewrite Q2R_plus, IH, H.
Qed.

Lemma Q2R_atan_term (p : positive) (n : nat) :
  Q2R (atan_term (1 # p) n) = Ratan_seq (/ IZR (Zpos p)) n.
Proof.
  unfold atan_term, Ratan_seq.
  rewrite Q2R_div, Q2R_qpow, Q2R_inject_Z, <- INR_IZR_INZ.
  - f_equal. f_equal. unfold Q2R. cbn [Qnum Qden]. ring.
  - intros E. apply Qeq_eqR in E.
    rewrite Q2R_inject_Z, RMicromega.Q2R_0 in E.
    apply eq_IZR in E. lia.
Qed.

Lemma Q2R_machin_term (i : nat) :
  Q2R (machin_term i) = tg_alt PI_2_3_7_tg i.
Proof.
  unfold machin_term, tg_alt, PI_2_3_7_tg.
  rewrite Q2R_mult, Q2R_plus, Q2R_mult, Q2R_qpow, !Q2R_atan_term.
  f_equal.
  - f_equal. unfold Q2R. cbn [Qnum Qden]. lra.
  - f_equal. f_equal. unfold Q2R. cbn [Qnum Qden]. lra.
Qed.

Lemma contains_PI : contains ipi PI.
Proof.
  assert (E : ipi = make (round_down (4 * qsum machin_term
                                            (S (2 * machin_rank))))
                         (round_up (4 * qsum machin_term
                                          (2 * machin_rank))))
    by (vm_compute; reflexivity).
  rewrite E. unfold contains. cbn [lo hi].
  destruct (PI_2_3_7_ineq machin_rank) as [Hl Hu].
  rewrite <- (Q2R_qsum machin_term _ _ Q2R_machin_term) in Hl.
  rewrite <- (Q2R_qsum machin_term _ _ Q2R_machin_term) in Hu.
  split.
  - eapply Rle_trans; [apply round_down_le|].
    rewrite Q2R_mult. replace (Q2R 4) with 4; [lra|].
    unfold Q2R. cbn [Qnum Qden]. lra.
  - eapply Rle_trans; [|apply round_up_ge].
    rewrite Q2R_mult. replace (Q2R 4) with 4; [lra|].
    unfold Q2R. cbn [Qnum Qden]. lra.
Qed.

(** *** The sine series *)

Lemma contains_recip (p : positive) :
  contains (recip p) (/ IZR (Zpos p)).
Proof.
  unfold contains, recip. cbn [lo hi].
  pose proof (round_down_le (1 # p)) as H1.
  pose proof (round_up_ge (1 # p)) as H2.
  assert (E : Q2R (1 # p) = / IZR (Zpos p)).
  { unfold Q2R. cbn [Qnum Qden]. ring. }
  rewrite E in H1, H2. lra.
Qed.

Lemma sin_term_0 (a : R) : sin_term a 0 = a.
Proof. unfold sin_term. cbn. field. Qed.

Lemma sin_term_S (a : R) (i : nat) :
  sin_term a (S i)
  = - (sin_term a i * (a * a)
       * / IZR (Zpos (Pos.of_nat ((2 * i + 2) * (2 * i + 3))))).
Proof.
  unfold sin_term.
  replace (2 * S i + 1)%nat with (S (S (2 * i + 1))) by lia.
  rewrite !fact_simpl, !mult_INR.
  replace (IZR (Zpos (Pos.of_nat ((2 * i + 2) * (2 * i + 3)))))
    with (INR (S (S (2 * i + 1))) * INR (S (2 * i + 1))).
  - cbn [pow].
    pose proof (INR_fact_neq_0 (2 * i + 1)).
    pose proof (not_0_INR (S (2 * i + 1)) ltac:(lia)).
    pose proof (not_0_INR (S (S (2 * i + 1))) ltac:(lia)).
    field. auto.
  - rewrite <- mult_INR, INR_IZR_INZ. f_equal.
    rewrite <- positive_nat_Z, Nat2Pos.id by lia. f_equal. lia.
Qed.

Lemma contains_sin_series (a : R) (a2 : t) (n : nat) :
  contains a2 (a * a) ->
  forall i term acc,
    contains term (sin_term a i) ->
    contains acc (sin_approx a i) ->
    contains (sin_series a2 n i term acc) (sin_approx a (i + n)).
Proof.
  intros Ha2. induction n as [|n IH]; intros i term acc Ht Hs.
  - cbn [sin_series]. now rewrite Nat.add_0_r.
  - cbn [sin_series]. replace (i + S n)%nat with (S i + n)%nat by lia.
    assert (Ht' : contains
                    (iopp (imul (imul term a2)
                             (recip (Pos.of_nat
                                       ((2 * i + 2) * (2 * i + 3))))))
                    (sin_term a (S i))).
    { rewrite sin_term_S. apply contains_opp.
      apply contains_mul; [now apply contains_mul | apply contains_recip]. }
    apply IH; [exact Ht'|].
    unfold sin_approx. cbn [sum_f_R0]. now apply contains_add.
Qed.

Lemma contains_sin_partial (m : Q) (n : nat) :
  contains (sin_partial m n) (sin_approx (Q2R m) n).
Proof.
  unfold sin_partial.
  apply (contains_sin_series (Q2R m) _ n
           (contains_mul _ _ _ _ (contains_const m) (contains_const m))
           0%nat).
  - rewrite sin_term_0. apply contains_const.
  - unfold sin_approx. cbn [sum_f_R0]. rewrite sin_term_0.
    apply contains_const.
Qed.

Lemma Q2R_0' : Q2R 0 = 0.
Proof. apply RMicromega.Q2R_0. Qed.

Lemma Q2R_4 : Q2R 4 = 4.
Proof. unfold Q2R. cbn [Qnum Qden]. lra. Qed.

Lemma contains_sin_point_rank (n : nat) (m : Q) :
  contains (sin_point_rank n m) (sin (Q2R m)).
Proof.
  unfold sin_point_rank.
  destruct (Qle_bool 0 m && Qle_bool m 4)%bool eqn:E1.
  - apply andb_prop in E1. destruct E1 as [H0 H4].
    apply Qle_bool_iff, Qle_Rle in H0, H4. rewrite Q2R_0' in H0.
    rewrite Q2R_4 in H4.
    destruct (pre_sin_bound (Q2R m) n H0 H4) as [Hl Hu].
    destruct (contains_sin_partial m (2 * n + 1)) as [Hl' _].
    destruct (contains_sin_partial m (2 * (n + 1))) as [_ Hu'].
    unfold contains. cbn [lo hi]. lra.
  - destruct (Qle_bool (-4) m && Qle_bool m 0)%bool eqn:E2.
    + apply andb_prop in E2. destruct E2 as [H4 H0].
      apply Qle_bool_iff, Qle_Rle in H0, H4. rewrite Q2R_0' in H0.
      replace (Q2R (-4)) with (-4) in H4
        by (unfold Q2R; cbn [Qnum Qden]; lra).
      assert (H0' : 0 <= Q2R (- m)) by (rewrite Q2R_opp; lra).
      assert (H4' : Q2R (- m) <= 4) by (rewrite Q2R_opp; lra).
      destruct (pre_sin_bound (Q2R (- m)) n H0' H4') as [Hl Hu].
      destruct (contains_sin_partial (- m) (2 * n + 1)) as [Hl' _].
      destruct (contains_sin_partial (- m) (2 * (n + 1)))
        as [_ Hu'].
      assert (Es : sin (Q2R (- m)) = - sin (Q2R m))
        by (rewrite Q2R_opp; apply sin_neg).
      rewrite Es in Hl, Hu.
      unfold contains. cbn [lo hi]. rewrite !Q2R_opp. lra.
    + pose proof (SIN_bound (Q2R m)).
      unfold contains. cbn [lo hi].
      replace (Q2R (-1)) with (-1) by (unfold Q2R; cbn [Qnum Qden]; lra).
      replace (Q2R 1) with 1 by (symmetry; apply RMicromega.Q2R_1). lra.
Qed.

Lemma contains_sin_point (m : Q) :
  contains (sin_point m) (sin (Q2R m)).
Proof. apply contains_sin_point_rank. Qed.

(** *** Sine and cosine of an interval *)

Lemma Rabs_le_both (a b : R) : Rabs a <= b -> - b <= a <= b.
Proof.
  intros H. pose proof (Rle_abs a). pose proof (Rle_abs (- a)) as H'.
  rewrite Rabs_Ropp in H'. lra.
Qed.

Lemma sin_abs_le (t : R) : Rabs (sin t) <= Rabs t.
Proof.
  assert (H : forall u, 0 <= u -> - u <= sin u <= u).
  { intros u Hu. split.
    - destruct (Rle_dec u 1).
      + pose proof PI2_1. pose proof (sin_ge_0 u Hu). lra.
      + pose proof (SIN_bound u). lra.
    - destruct Hu as [Hu|<-]; [left; now apply sin_lt_x|].
      rewrite sin_0. lra. }
  destruct (Rle_dec 0 t) as [Ht|Ht].
  - specialize (H t Ht). rewrite (Rabs_pos_eq t) by lra.
    apply Rabs_le. lra.
  - specialize (H (- t) ltac:(lra)). rewrite sin_neg in H.
    rewrite (Rabs_left t) by lra. apply Rabs_le. lra.
Qed.

Lemma sin_lipschitz (x y : R) : Rabs (sin x - sin y) <= Rabs (x - y).
Proof.
  rewrite form4, !Rabs_mult.
  pose proof (COS_bound ((x + y) / 2)) as Hc.
  assert (Hc' : Rabs (cos ((x + y) / 2)) <= 1) by (apply Rabs_le; lra).
  pose proof (sin_abs_le ((x - y) / 2)) as Hs.
  pose proof (Rabs_pos (cos ((x + y) / 2))).
  pose proof (Rabs_pos (sin ((x - y) / 2))).
  replace (Rabs ((x - y) / 2)) with (Rabs (x - y) / 2) in Hs.
  - rewrite (Rabs_pos_eq 2) by lra. nra.
  - unfold Rdiv. rewrite Rabs_mult, (Rabs_pos_eq (/ 2)); lra.
Qed.

Lemma sin_period_Z (x : R) (k : Z) : sin (x - IZR (2 * k) * PI) = sin x.
Proof.
  rewrite mult_IZR. destruct (Z_le_gt_dec 0 k) as [Hk|Hk].
  - rewrite <- (sin_period (x - 2 * IZR k * PI) (Z.to_nat k)).
    f_equal. rewrite INR_IZR_INZ, Z2Nat.id by lia. ring.
  - rewrite <- (sin_period x (Z.to_nat (- k))).
    f_equal. rewrite INR_IZR_INZ, Z2Nat.id by lia.
    rewrite opp_IZR. ring.
Qed.

Lemma contains_sin a x : contains a x -> contains (isin a) (sin x).
Proof.
  intros Hx. unfold isin.
  set (k := turns a).
  set (a' := isub a (imul (const (inject_Z (2 * k))) ipi)).
  assert (Hx' : contains a' (x - IZR (2 * k) * PI)).
  { apply contains_sub; [exact Hx|].
    apply contains_mul; [apply contains_IZR | apply contains_PI]. }
  rewrite <- (sin_period_Z x k).
  set (x' := x - IZR (2 * k) * PI) in *.
  destruct Hx' as [Hl Hh].
  set (m := ((lo a' + hi a') * (1 # 2))%Q).
  set (w := qmax (hi a' - m) (m - lo a')).
  pose proof (contains_sin_point m) as [Sl Sh].
  destruct (qmax_ge (hi a' - m) (m - lo a')) as [W1 W2]. fold w in W1, W2.
  rewrite Q2R_minus in W1, W2.
  assert (HL : Rabs (sin x' - sin (Q2R m)) <= Q2R w).
  { eapply Rle_trans; [apply sin_lipschitz|]. apply Rabs_le. lra. }
  apply Rabs_le_both in HL.
  unfold contains. cbn [lo hi]. split.
  - eapply Rle_trans; [apply round_down_le|].
    rewrite Q2R_minus. lra.
  - eapply Rle_trans; [|apply round_up_ge].
    rewrite Q2R_plus. lra.
Qed.

Lemma contains_cos a x : contains a x -> contains (icos a) (cos x).
Proof.
  intros Hx. unfold icos. rewrite cos_sin, Rplus_comm.
  apply contains_sin, contains_add; [exact Hx|].
  apply contains_div; [apply contains_PI | apply contains_IZR | reflexivity].
Qed.

Lemma within_bounds (i : t) (l u : Q) (x : R) :
  contains i x -> within i l u = true -> Q2R l <= x <= Q2R u.
Proof.
  unfold within, contains. intros [Hl Hu] H.
  apply andb_prop in H. destruct H as [H1 H2].
  apply Qle_bool_iff, Qle_Rle in H1, H2. lra.
Qed.

End IntervalFacts.

(** Encloses a real expression built from numerals, [PI], the field
    operations, [sin] and [cos]. *)
Ltac bound :=
  lazymatch goal with
  | H : Interval.contains _ ?x |- Interval.contains _ ?x => exact H
  | |- Interval.contains _ (?a + ?b) =>
      eapply IntervalFacts.contains_add; bound
  | |- Interval.contains _ (?a - ?b) =>
      eapply IntervalFacts.contains_sub; bound
  | |- Interval.contains _ (?a * ?b) =>
      eapply IntervalFacts.contains_mul; bound
  | |- Interval.contains _ (?a / ?b) =>
      eapply IntervalFacts.contains_div;
      [bound | bound | vm_compute; reflexivity]
  | |- Interval.contains _ (- ?a) =>
      eapply IntervalFacts.contains_opp; bound
  | |- Interval.contains _ (?a ^ ?n) =>
      eapply IntervalFacts.contains_pow; bound
  | |- Interval.contains _ (sin ?a) =>
      eapply IntervalFacts.contains_sin; bound
  | |- Interval.contains _ (cos ?a) =>
      eapply IntervalFacts.contains_cos; bound
  | |- Interval.contains _ PI => apply IntervalFacts.contains_PI
  | |- Interval.contains _ (Q2R ?q) => apply IntervalFacts.contains_const
  | |- Interval.contains _ (IZR ?z) => apply IntervalFacts.contains_IZR
  end.

(** ** Sine and cosine of the right ascension and of the declination *)

Lemma arctan2_on_unit_circle (z r : R) :
  0 <= r -> z * z + r * r = 1 ->
  sin (Np.arctan2 z r) = z /\ cos (Np.arctan2 z r) = r.
Proof.
  intros Hr Hc. unfold Np.arctan2.
  destruct (Rlt_dec 0 r) as [Hpos|Hnpos].
  - assert (Hs : sqrt (1 + (z / r)²) = / r).
    { apply sqrt_lem_1.
      - pose proof (Rle_0_sqr (z / r)). lra.
      - left. now apply Rinv_0_lt_compat.
      - unfold Rsqr. field_simplify; [|lra|lra].
        replace (r ^ 2 + z ^ 2) with 1 by nra. reflexivity. }
    rewrite sin_atan, cos_atan, Hs. split; field; lra.
  - assert (r = 0) by lra. subst r.
    destruct (Rlt_dec 0 0) as [?|_]; [lra|].
    destruct (Rlt_dec 0 z).
    + rewrite sin_PI2, cos_PI2. split; nra.
    + destruct (Rlt_dec z 0).
      * rewrite sin_neg, cos_neg, sin_PI2, cos_PI2. split; nra.
      * nra.
Qed.

Lemma half_angle_on_circle (x y r : R) :
  0 < x + r -> r * r = x * x + y * y ->
  cos (2 * Np.arctan2 y (x + r)) = x / r /\
  sin (2 * Np.arctan2 y (x + r)) = y / r.
Proof.
  intros Hpos Hc. unfold Np.arctan2.
  destruct (Rlt_dec 0 (x + r)); [|lra].
  assert (Hr : 0 < r) by nra.
  set (t := y / (x + r)).
  set (s := sqrt (1 + t²)).
  assert (Hs0 : 0 < s).
  { apply sqrt_lt_R0. pose proof (Rle_0_sqr t). lra. }
  assert (Hs2 : s * s = 1 + t * t).
  { unfold s. rewrite sqrt_sqrt; [reflexivity|].
    pose proof (Rle_0_sqr t). lra. }
  assert (Ht : t * (x + r) = y) by (unfold t; field; lra).
  assert (H1 : (1 + t * t) * (x + r) = 2 * r).
  { apply (Rmult_eq_reg_r (x + r)); [|lra].
    replace ((1 + t * t) * (x + r) * (x + r))
      with ((x + r) * (x + r) + (t * (x + r)) * (t * (x + r))) by ring.
    rewrite Ht. nra. }
  assert (H2 : (1 - t * t) * (x + r) = 2 * x).
  { apply (Rmult_eq_reg_r (x + r)); [|lra].
    replace ((1 - t * t) * (x + r) * (x + r))
      with ((x + r) * (x + r) - (t * (x + r)) * (t * (x + r))) by ring.
    rewrite Ht. nra. }
  assert (E1 : 1 + t * t = 2 * r / (x + r)) by (rewrite <- H1; field; lra).
  assert (E2 : 1 - t * t = 2 * x / (x + r)) by (rewrite <- H2; field; lra).
  assert (E3 : 2 * t = 2 * y / (x + r)) by (rewrite <- Ht; field; lra).
  rewrite cos_2a, sin_2a, sin_atan, cos_atan. fold s.
  split.
  - replace (1 / s * (1 / s) - t / s * (t / s))
      with ((1 - t * t) / (s * s)) by (field; lra).
    rewrite Hs2, E1, E2. field. lra.
  - replace (2 * (t / s) * (1 / s)) with (2 * t / (s * s)) by (field; lra).
    rewrite Hs2, E1, E3. field. lra.
Qed.

Lemma declination_on_circle (c : R) :
  sin (snd (_right_ascension_declination c)) = sun_z c /\
  cos (snd (_right_ascension_declination c)) = sun_r c.
Proof.
  cbn [_right_ascension_declination snd].
  apply arctan2_on_unit_circle; [apply sun_r_nonneg|].
  rewrite sun_r_sqr. pose proof (sun_sphere c). lra.
Qed.

Lemma right_ascension_on_circle (c : R) :
  0 < sun_x c + sun_r c ->
  cos (fst (_right_ascension_declination c)) = sun_x c / sun_r c /\
  sin (fst (_right_ascension_declination c)) = sun_y c / sun_r c.
Proof.
  intros H. cbn [_right_ascension_declination fst].
  apply half_angle_on_circle; [exact H | apply sun_r_sqr].
Qed.

(** Where the half-angle form of the right ascension is regular, the zenith
    combiner is the scalar product of the observer's and the sun's unit
    vectors. *)
Lemma star_cos_zenith_reduced (c lon lat : R) :
  0 < sun_x c + sun_r c ->
  _star_cos_zenith c lon lat
  = sin lat * sun_z c
    + cos lat * (sun_x c * cos (_local_mean_sidereal_time c lon)
                 + sun_y c * sin (_local_mean_sidereal_time c lon)).
Proof.
  intros H. rewrite star_cos_zenith_unfold.
  destruct (declination_on_circle c) as [-> ->].
  destruct (right_ascension_on_circle c H) as [Hc Hs].
  rewrite cos_minus, Hc, Hs.
  assert (Hr : 0 < sun_r c).
  { pose proof (sun_r_sqr c). pose proof (sun_r_nonneg c). nra. }
  field. lra.
Qed.

Lemma star_cos_zenith_pole (c lon : R) :
  _star_cos_zenith c lon (Np.deg2rad 90) = sun_z c.
Proof.
  rewrite star_cos_zenith_unfold.
  destruct (declination_on_circle c) as [-> _].
  replace (Np.deg2rad 90) with (PI / 2) by (unfold Np.deg2rad; field).
  rewrite sin_PI2, cos_PI2. ring.
Qed.

Lemma sin_mod_turn (v a : R) : sin (Np.mod_ v (2 * PI) + a) = sin (v + a).
Proof.
  unfold Np.mod_.
  rewrite <- (IntervalFacts.sin_period_Z (v + a) (Int_part (v / (2 * PI)))).
  f_equal. rewrite mult_IZR. ring.
Qed.

Lemma cos_mod_turn (v a : R) : cos (Np.mod_ v (2 * PI) + a) = cos (v + a).
Proof.
  rewrite !cos_sin, !(Rplus_comm (PI / 2)), !Rplus_assoc.
  apply sin_mod_turn.
Qed.

Lemma contains_eval (i j : Interval.t) (x : R) :
  Interval.contains i x -> i = j -> Interval.contains j x.
Proof. now intros H <-. Qed.

(** ** Sensitivity of the zenith combiner to the observer's position *)

Lemma cos_lipschitz (x y : R) : Rabs (cos x - cos y) <= Rabs (x - y).
Proof.
  rewrite !cos_sin.
  eapply Rle_trans; [apply IntervalFacts.sin_lipschitz|].
  right. f_equal. ring.
Qed.

Lemma chord_squared (a b : R) :
  (sin a - sin b) * (sin a - sin b) + (cos a - cos b) * (cos a - cos b)
  <= (a - b) * (a - b).
Proof.
  rewrite form4, form2.
  pose proof (sin2_cos2 ((a + b) / 2)) as Hc.
  pose proof (sin2_cos2 ((a - b) / 2)) as Hd.
  pose proof (IntervalFacts.sin_abs_le ((a - b) / 2)) as Hs.
  apply Rsqr_le_abs_1 in Hs. unfold Rsqr in *.
  set (S := sin ((a + b) / 2)) in *. set (C := cos ((a + b) / 2)) in *.
  set (s := sin ((a - b) / 2)) in *.
  replace (2 * C * s * (2 * C * s) + -2 * s * S * (-2 * s * S))
    with (4 * (s * s) * (S * S + C * C)) by ring.
  rewrite Hc. lra.
Qed.

Lemma combiner_lipschitz_lat (s k a a' : R) :
  s * s + k * k <= 1 ->
  Rabs ((sin a' * s + cos a' * k) - (sin a * s + cos a * k)) <= Rabs (a' - a).
Proof.
  intros Hsk. apply Rsqr_le_abs_0. unfold Rsqr.
  pose proof (chord_squared a' a) as Hch.
  set (u := sin a' - sin a) in *. set (v := cos a' - cos a) in *.
  replace (sin a' * s + cos a' * k - (sin a * s + cos a * k))
    with (u * s + v * k) by (unfold u, v; ring).
  pose proof (Rle_0_sqr (u * k - v * s)) as Hcs. unfold Rsqr in Hcs.
  assert (H0 : 0 <= u * u + v * v) by nra.
  assert (H1 : (u * s + v * k) * (u * s + v * k)
               <= (u * u + v * v) * (s * s + k * k)) by nra.
  assert (H2 : (u * u + v * v) * (s * s + k * k) <= (u * u + v * v) * 1).
  { apply Rmult_le_compat_l; assumption. }
  lra.
Qed.

Lemma star_cos_zenith_lipschitz (c lon lat lon' lat' : R) :
  Rabs (_star_cos_zenith c lon' lat' - _star_cos_zenith c lon lat)
  <= Rabs (lon' - lon) + Rabs (lat' - lat).
Proof.
  rewrite !star_cos_zenith_unfold.
  set (dec := snd (_right_ascension_declination c)).
  set (ra := fst (_right_ascension_declination c)).
  unfold _local_mean_sidereal_time.
  set (g := _greenwich_mean_sidereal_time c).
  replace (sin lat' * sin dec + cos lat' * cos dec * cos (g + lon' - ra)
           - (sin lat * sin dec + cos lat * cos dec * cos (g + lon - ra)))
    with (((sin lat' * sin dec + cos lat' * (cos dec * cos (g + lon' - ra)))
           - (sin lat * sin dec + cos lat * (cos dec * cos (g + lon' - ra))))
          + cos lat * cos dec
            * (cos (g + lon' - ra) - cos (g + lon - ra))) by ring.
  eapply Rle_trans; [apply Rabs_triang|]. rewrite Rplus_comm.
  apply Rplus_le_compat.
  - rewrite Rabs_mult.
    pose proof (cos_lipschitz (g + lon' - ra) (g + lon - ra)) as Hl.
    replace (g + lon' - ra - (g + lon - ra)) with (lon' - lon) in Hl by ring.
    assert (Hp : Rabs (cos lat * cos dec) <= 1).
    { rewrite Rabs_mult.
      pose proof (COS_bound lat). pose proof (COS_bound dec).
      assert (Rabs (cos lat) <= 1) by (apply Rabs_le; lra).
      assert (Rabs (cos dec) <= 1) by (apply Rabs_le; lra).
      pose proof (Rabs_pos (cos lat)). pose proof (Rabs_pos (cos dec)). nra. }
    pose proof (Rabs_pos (cos lat * cos dec)).
    pose proof (Rabs_pos (cos (g + lon' - ra) - cos (g + lon - ra))). nra.
  - apply combiner_lipschitz_lat.
    pose proof (sin2_cos2 dec) as Hd. unfold Rsqr in Hd.
    pose proof (COS_bound (g + lon' - ra)).
    assert (cos (g + lon' - ra) * cos (g + lon' - ra) <= 1) by nra.
    assert (0 <= cos dec * cos dec) by nra.
    nra.
Qed.

(** ** The formulas at given instants *)

Lemma sun_z_at_reference : -0.3912645 <= sun_z 0 <= -0.3912644.
Proof.
  unfold sun_z, _obliquity_star, _sun_ecliptic_longitude, Np.deg2rad.
  eapply IntervalFacts.within_bounds; [bound | vm_compute; reflexivity].
Qed.

Lemma sun_z_half_day_before :
  -0.3918866 <= sun_z (- 1 / 73050) <= -0.3918865.
Proof.
  unfold sun_z, _obliquity_star, _sun_ecliptic_longitude, Np.deg2rad.
  eapply IntervalFacts.within_bounds; [bound | vm_compute; reflexivity].
Qed.

(** Half a day apart, the cosine of the zenith angle at the north pole
    differs by far more than [1e-6]. *)
Lemma zenith_half_day_gap (lon : R) :
  1e-6 < _star_cos_zenith 0 lon (Np.deg2rad 90)
         - _star_cos_zenith (- 1 / 73050) lon (Np.deg2rad 90).
Proof.
  rewrite !star_cos_zenith_pole.
  pose proof sun_z_at_reference. pose proof sun_z_half_day_before. lra.
Qed.

Lemma contains_within (i : Interval.t) (l u : Q) (x : R) :
  Interval.contains i x -> Interval.within i l u = true ->
  Interval.contains (Interval.make l u) x.
Proof. intros H1 H2. exact (IntervalFacts.within_bounds i l u x H1 H2). Qed.

Lemma star_cos_zenith_2002 :
  -0.4478173
  <= _star_cos_zenith century_2002 (Np.deg2rad 120) (Np.deg2rad 360)
  <= -0.4478172.
Proof.
  assert (Hel : Interval.contains (Interval.make 17.46911444 17.46911445)
                  (_sun_ecliptic_longitude century_2002)).
  { unfold _sun_ecliptic_longitude, century_2002, Np.deg2rad.
    eapply contains_within; [bound | vm_compute; reflexivity]. }
  assert (Hx : 0.1 <= sun_x century_2002 <= 0.2).
  { unfold sun_x.
    eapply IntervalFacts.within_bounds; [bound | vm_compute; reflexivity]. }
  rewrite star_cos_zenith_reduced
    by (pose proof (sun_r_nonneg century_2002); lra).
  unfold _local_mean_sidereal_time, _greenwich_mean_sidereal_time.
  rewrite cos_mod_turn, sin_mod_turn.
  unfold sun_x, sun_y, sun_z, _obliquity_star, gmst_theta, Np.deg2rad.
  unfold century_2002 in *.
  eapply IntervalFacts.within_bounds; [bound | vm_compute; reflexivity].
Qed.

Lemma julian_century_2002 :
  _datetime_to_julian_century (Np.Scalar (Py.Datetime noon_2002))
  = Py.Ok (Np.Scalar century_2002).
Proof.
  rewrite julian_century_scalar. do 2 f_equal.
  replace (Py.wall_clock_us noon_2002 - Py.wall_clock_us REFERENCE_2000)%Z
    with 63158400000000%Z by reflexivity.
  unfold century_2002. lra.
Qed.

Lemma epoch_seconds_noon_plus12 :
  Py.epoch_seconds noon_2000_plus12 = 946684800.
Proof.
  unfold Py.epoch_seconds.
  replace (Py.wall_clock_us noon_2000_plus12
           - Py.timedelta 0 (Py.offset_seconds noon_2000_plus12) 0
           - Py.wall_clock_us Py._EPOCH)%Z
    with 946684800000000%Z by reflexivity.
  lra.
Qed.

Lemma epoch_seconds_midnight_utc :
  Py.epoch_seconds midnight_2000_utc = 946684800.
Proof.
  unfold Py.epoch_seconds.
  replace (Py.wall_clock_us midnight_2000_utc
           - Py.timedelta 0 (Py.offset_seconds midnight_2000_utc) 0
           - Py.wall_clock_us Py._EPOCH)%Z
    with 946684800000000%Z by reflexivity.
  lra.
Qed.

Lemma calendar_path_noon_plus12 (lon lat : R) :
  cos_zenith_angle (Np.Scalar (Py.Datetime noon_2000_plus12)) lon lat
  = Py.Ok (Np.Scalar
             (_star_cos_zenith 0 (Np.deg2rad lon) (Np.deg2rad lat))).
Proof.
  unfold cos_zenith_angle. rewrite julian_century_scalar.
  cbn [Py.bind Np.map]. do 3 f_equal.
  replace (Py.wall_clock_us noon_2000_plus12
           - Py.wall_clock_us REFERENCE_2000)%Z with 0%Z by reflexivity.
  lra.
Qed.

Lemma calendar_path_midnight_utc (lon lat : R) :
  cos_zenith_angle (Np.Scalar (Py.Datetime midnight_2000_utc)) lon lat
  = Py.Ok (Np.Scalar
             (_star_cos_zenith (- 1 / 73050)
                (Np.deg2rad lon) (Np.deg2rad lat))).
Proof.
  unfold cos_zenith_angle. rewrite julian_century_scalar.
  cbn [Py.bind Np.map]. do 3 f_equal.
  replace (Py.wall_clock_us midnight_2000_utc
           - Py.wall_clock_us REFERENCE_2000)%Z
    with (-43200000000)%Z by reflexivity.
  lra.
Qed.

Lemma timestamp_path_midnight (lon lat : R) :
  cos_zenith_angle_from_timestamp 946684800 lon lat
  = _star_cos_zenith (- 1 / 73050) (Np.deg2rad lon) (Np.deg2rad lat).
Proof.
  unfold cos_zenith_angle_from_timestamp, _timestamp_to_julian_century.
  rewrite TIMESTAMP_2000_value. f_equal. lra.
Qed.

Lemma valid_noon_2000_plus12 : Py.valid noon_2000_plus12.
Proof. unfold Py.valid. cbn. lia. Qed.

Lemma valid_midnight_2000_utc : Py.valid midnight_2000_utc.
Proof. unfold Py.valid. cbn. lia. Qed.

(** ** The calendar arithmetic counts days *)




(** * The claims *)

(** C1 (as amended).  For every calendar timestamp [T] the calendar path
    returns what the timestamp path returns at the epoch seconds of the
    wall-clock fields of [T] read as UTC; so for every [T] that is naive
    (implicitly UTC) or aware with a zero UTC offset, and its equivalent
    epoch seconds, the two entry points agree to within [1e-6] (they are
    equal in exact arithmetic). *)
Theorem calendar_and_timestamp_paths_agree (T : Py.datetime) (lon lat : R) :
  cos_zenith_angle (Np.Scalar (Py.Datetime T)) lon lat
  = Py.Ok (Np.Scalar
             (cos_zenith_angle_from_timestamp
                (Py.epoch_seconds T + IZR (Py.offset_seconds T)) lon lat)) /\
  (Py.tzinfo T = None \/ Py.tzinfo T = Py.utc ->
   exists v,
     cos_zenith_angle (Np.Scalar (Py.Datetime T)) lon lat
     = Py.Ok (Np.Scalar v) /\
     Rabs (v - cos_zenith_angle_from_timestamp (Py.epoch_seconds T) lon lat)
     < 1e-6).
Proof.
  split; [apply cos_zenith_angle_scalar|].
  intros Htz. eexists. split; [apply cos_zenith_angle_scalar|].
  assert (Hoff : Py.offset_seconds T = 0%Z).
  { unfold Py.offset_seconds. destruct Htz as [-> | ->]; reflexivity. }
  rewrite Hoff, Rplus_0_r.
  unfold Rminus. rewrite Rplus_opp_r, Rabs_R0. lra.
Qed.

Lemma calendar_and_timestamp_paths_agree_witness :
  exists v,
    cos_zenith_angle (Np.Scalar (Py.Datetime noon_2002)) 120 360
    = Py.Ok (Np.Scalar v) /\
    Rabs (v - cos_zenith_angle_from_timestamp
                (Py.epoch_seconds noon_2002) 120 360) < 1e-6.
Proof.
  exact (proj2 (calendar_and_timestamp_paths_agree noon_2002 120 360)
           (or_introl eq_refl)).
Defined.

(** C1 fails as stated: for noon of 2000-01-01 on a clock twelve hours
    ahead of UTC, at the north pole, the calendar path and the timestamp
    path at the equivalent epoch seconds differ by more than [1e-6]. *)
Lemma paths_disagree_with_offset :
  Py.valid noon_2000_plus12 /\
  exists v,
    cos_zenith_angle (Np.Scalar (Py.Datetime noon_2000_plus12)) 0 90
    = Py.Ok (Np.Scalar v) /\
    1e-6 < Rabs (v - cos_zenith_angle_from_timestamp
                       (Py.epoch_seconds noon_2000_plus12) 0 90).
Proof.
  split; [exact valid_noon_2000_plus12|].
  eexists. split; [apply calendar_path_noon_plus12|].
  rewrite epoch_seconds_noon_plus12, timestamp_path_midnight.
  pose proof (zenith_half_day_gap (Np.deg2rad 0)) as H.
  rewrite Rabs_pos_eq; lra.
Qed.

(** C2.  For every Julian-century value, longitude and latitude (radians)
    the zenith combiner returns
    [sin lat * sin dec + cos lat * cos dec * cos h], where [dec] is the
    declination computed by the ephemeris stage and [h], the local hour
    angle, is the local mean sidereal time minus the computed right
    ascension; the value is returned as it is, with no clamping. *)
Theorem star_cos_zenith_formula (julian_centuries lon lat : R) :
  let ra := fst (_right_ascension_declination julian_centuries) in
  let dec := snd (_right_ascension_declination julian_centuries) in
  let h := _local_mean_sidereal_time julian_centuries lon - ra in
  _local_hour_angle julian_centuries lon ra = h /\
  _star_cos_zenith julian_centuries lon lat
  = sin lat * sin dec + cos lat * cos dec * cos h.
Proof. split; reflexivity. Qed.

(** C3.  For every Julian-century value [T], negative ones included, the
    Greenwich mean sidereal time is the cubic
    [67310.54841 + T*(876600*3600 + 8640184.812866 + T*(0.093104 - T*6.2e-5))]
    divided by 240, converted to radians and reduced modulo [2*PI]: the
    result differs from that angle by a whole number of turns and lies in
    [[0, 2*PI)]. *)
Theorem gmst_cubic_wrapped (T : R) :
  let theta :=
    67310.54841
    + T * (876600 * 3600 + 8640184.812866 + T * (0.093104 - T * 6.2e-5)) in
  let angle := theta / 240 * (PI / 180) in
  _greenwich_mean_sidereal_time T = Np.mod_ angle (2 * PI) /\
  (exists k : Z, _greenwich_mean_sidereal_time T = angle - IZR k * (2 * PI)) /\
  0 <= _greenwich_mean_sidereal_time T < 2 * PI.
Proof.
  intros theta angle.
  assert (Hg : _greenwich_mean_sidereal_time T = Np.mod_ angle (2 * PI)).
  { unfold _greenwich_mean_sidereal_time, gmst_theta, Np.deg2rad.
    f_equal. unfold angle, theta. lra. }
  split; [exact Hg|]. rewrite Hg. split.
  - apply mod_shift.
  - apply mod_range. pose proof PI_RGT_0. lra.
Qed.




(** C5 (as amended).  The invalid-date-type error is raised, by
    [_days_from_2000] and unchanged by the calendar entry point, exactly
    when the flattened input has a first element and that element is not a
    [datetime.datetime], whether the input is an array or a scalar; the
    timestamp entry point cannot raise. *)
Theorem invalid_date_type_iff_first_element (time : Np.ndarray Py.value)
  (lon lat : R) :
  (_days_from_2000 time = Py.Raise Py.ValueError <->
   exists v rest, Np.ravel time = v :: rest /\ Py.is_datetime v = false) /\
  (cos_zenith_angle time lon lat = Py.Raise Py.ValueError <->
   exists v rest, Np.ravel time = v :: rest /\ Py.is_datetime v = false).
Proof.
  split; [apply days_from_2000_ValueError|].
  rewrite cos_zenith_angle_raises. apply days_from_2000_ValueError.
Qed.

(** C5 fails as stated, whether "an array whose element type is not a
    calendar timestamp" means that some element or that every element is
    not a [datetime.datetime]: an array with a datetime first and a float
    second does not raise the error, and a scalar float does. *)
Lemma invalid_date_type_not_exactly_arrays :
  ~ (forall time lon lat,
        cos_zenith_angle time lon lat = Py.Raise Py.ValueError <->
        exists vs, time = Np.Array vs /\
                   Exists (fun v => Py.is_datetime v = false) vs) /\
  ~ (forall time lon lat,
        cos_zenith_angle time lon lat = Py.Raise Py.ValueError <->
        exists vs, time = Np.Array vs /\
                   Forall (fun v => Py.is_datetime v = false) vs).
Proof.
  split.
  - intros H.
    destruct (H (Np.Array [Py.Datetime noon_2002; Py.Float 0]) 0 0)
      as [_ H2].
    assert (Hr : cos_zenith_angle
                   (Np.Array [Py.Datetime noon_2002; Py.Float 0]) 0 0
                 = Py.Raise Py.ValueError).
    { apply H2. eexists. split; [reflexivity|].
      apply Exists_cons_tl, Exists_cons_hd. reflexivity. }
    apply cos_zenith_angle_raises in Hr. discriminate Hr.
  - intros H.
    destruct (H (Np.Scalar (Py.Float 0)) 0 0) as [H1 _].
    destruct (H1 eq_refl) as (vs & Hvs & _). discriminate Hvs.
Qed.

(** C6.  For all real latitude, declination and hour angle the combination
    [sin lat * sin dec + cos lat * cos dec * cos h] lies in [[-1, 1]]
    (in exact real arithmetic); hence so do the zenith combiner and every
    value the two public entry points return. *)
Theorem cos_zenith_in_unit_interval :
  (forall lat dec h : R,
      -1 <= sin lat * sin dec + cos lat * cos dec * cos h <= 1) /\
  (forall c lon lat : R, -1 <= _star_cos_zenith c lon lat <= 1) /\
  (forall timestamp lon lat : R,
      -1 <= cos_zenith_angle_from_timestamp timestamp lon lat <= 1) /\
  (forall time lon lat out,
      cos_zenith_angle time lon lat = Py.Ok out ->
      Forall (fun v => -1 <= v <= 1) (Np.ravel out)).
Proof.
  split; [exact law_of_cosines_bound|].
  split; [exact star_cos_zenith_bound|].
  split; [intros; apply star_cos_zenith_bound|].
  intros time lon lat out. unfold cos_zenith_angle.
  destruct (_datetime_to_julian_century time) as [jc|]; cbn; [|discriminate].
  intros H. inversion H; subst. destruct jc as [c|l]; cbn.
  - constructor; [apply star_cos_zenith_bound | constructor].
  - apply Forall_forall. intros v Hv. apply in_map_iff in Hv.
    destruct Hv as (c & <- & _). apply star_cos_zenith_bound.
Qed.

Lemma cos_zenith_in_unit_interval_witness :
  Forall (fun v => -1 <= v <= 1)
    (Np.ravel
       (Np.Scalar
          (cos_zenith_angle_from_timestamp
             (Py.epoch_seconds (Py.mkDatetime 2002 1 1 12 0 0 0 None)
              + IZR (Py.offset_seconds (Py.mkDatetime 2002 1 1 12 0 0 0 None)))
             120 360))).
Proof.
  exact (proj2 (proj2 (proj2 cos_zenith_in_unit_interval)) _ _ _ _
           (cos_zenith_angle_scalar (Py.mkDatetime 2002 1 1 12 0 0 0 None)
              120 360)).
Defined.

(** C7.  [cos_zenith_angle] at the naive timestamp
    [datetime(2002, 1, 1, 12, 0, 0)] with [lon = 120] and [lat = 360]
    returns a value, with no error for the out-of-range latitude, and that
    value is within [1e-6] of [-0.447817277].  The bound also holds when the
    radians handed to the zenith combiner are off from the exact conversions
    by up to [9e-7] in total, which covers their rounding to single
    precision (whose spacing is below [2.4e-7] near [2*PI/3] and below
    [4.8e-7] near [2*PI]). *)
Theorem cos_zenith_angle_2002_example :
  (exists v,
      cos_zenith_angle (Np.Scalar (Py.Datetime noon_2002)) 120 360
      = Py.Ok (Np.Scalar v) /\
      Rabs (v - (-0.447817277)) < 1e-6) /\
  _datetime_to_julian_century (Np.Scalar (Py.Datetime noon_2002))
  = Py.Ok (Np.Scalar century_2002) /\
  (forall lon_rad lat_rad,
      Rabs (lon_rad - Np.deg2rad 120) + Rabs (lat_rad - Np.deg2rad 360)
      <= 9e-7 ->
      Rabs (_star_cos_zenith century_2002 lon_rad lat_rad - (-0.447817277))
      < 1e-6).
Proof.
  pose proof star_cos_zenith_2002 as Hv.
  split; [|split; [exact julian_century_2002|]].
  - eexists. split.
    + unfold cos_zenith_angle. rewrite julian_century_2002. reflexivity.
    + apply Rabs_def1; lra.
  - intros lon_rad lat_rad Hd.
    pose proof (star_cos_zenith_lipschitz century_2002 (Np.deg2rad 120)
                  (Np.deg2rad 360) lon_rad lat_rad) as Hl.
    apply IntervalFacts.Rabs_le_both in Hl.
    apply Rabs_def1; lra.
Qed.

Lemma cos_zenith_angle_2002_example_witness :
  Rabs (_star_cos_zenith century_2002 (Np.deg2rad 120) (Np.deg2rad 360)
        - (-0.447817277)) < 1e-6.
Proof.
  apply (proj2 (proj2 cos_zenith_angle_2002_example)).
  unfold Rminus. rewrite !Rplus_opp_r, Rabs_R0. lra.
Defined.

(** C8.  For every timezone-aware datetime passed to [cos_zenith_angle]
    the UTC offset is discarded: the zone is relabelled as UTC with the
    wall-clock fields unchanged, so the result does not depend on the
    offset and is the one for the wall-clock fields read as UTC; and two
    aware datetimes that denote the same instant in different zones yield
    different results. *)
Theorem aware_offset_is_discarded :
  (forall d off off' lon lat,
      Py.tzinfo d = Some off ->
      relabel_utc (Np.Scalar (Py.Datetime d))
      = Np.Scalar (Py.Datetime (Py.replace_tzinfo d Py.utc)) /\
      cos_zenith_angle (Np.Scalar (Py.Datetime d)) lon lat
      = cos_zenith_angle
          (Np.Scalar (Py.Datetime (Py.replace_tzinfo d (Some off'))))
          lon lat /\
      cos_zenith_angle (Np.Scalar (Py.Datetime d)) lon lat
      = Py.Ok (Np.Scalar
                 (cos_zenith_angle_from_timestamp
                    (Py.epoch_seconds (Py.replace_tzinfo d Py.utc))
                    lon lat))) /\
  (Py.valid noon_2000_plus12 /\ Py.valid midnight_2000_utc /\
   Py.tzinfo noon_2000_plus12 = Some 43200%Z /\
   Py.tzinfo midnight_2000_utc = Some 0%Z /\
   Py.epoch_seconds noon_2000_plus12 = Py.epoch_seconds midnight_2000_utc /\
   cos_zenith_angle (Np.Scalar (Py.Datetime noon_2000_plus12)) 0 90
   <> cos_zenith_angle (Np.Scalar (Py.Datetime midnight_2000_utc)) 0 90).
Proof.
  split.
  - intros d off off' lon lat _. split; [reflexivity|].
    assert (H : forall tz,
               cos_zenith_angle
                 (Np.Scalar (Py.Datetime (Py.replace_tzinfo d tz))) lon lat
               = cos_zenith_angle (Np.Scalar (Py.Datetime d)) lon lat).
    { intros tz. unfold cos_zenith_angle.
      now rewrite !julian_century_scalar, wall_clock_relabel. }
    split; [now rewrite H|].
    rewrite <- (H Py.utc), cos_zenith_angle_scalar.
    cbn [Py.offset_seconds Py.replace_tzinfo Py.tzinfo Py.utc].
    now rewrite Rplus_0_r.
  - split; [exact valid_noon_2000_plus12|].
    split; [exact valid_midnight_2000_utc|].
    split; [reflexivity|]. split; [reflexivity|].
    split; [now rewrite epoch_seconds_noon_plus12,
              epoch_seconds_midnight_utc|].
    rewrite calendar_path_noon_plus12, calendar_path_midnight_utc.
    intros H. injection H as H.
    pose proof (zenith_half_day_gap (Np.deg2rad 0)). lra.
Qed.

Lemma aware_offset_is_discarded_witness :
  cos_zenith_angle (Np.Scalar (Py.Datetime noon_2000_plus12)) 0 90
  = cos_zenith_angle
      (Np.Scalar (Py.Datetime (Py.replace_tzinfo noon_2000_plus12 (Some 0%Z))))
      0 90.
Proof.
  exact (proj1 (proj2 (proj1 aware_offset_is_discarded noon_2000_plus12
                         43200%Z 0%Z 0 90 eq_refl))).
Defined.

(** C9.  For every Julian-century input the intermediate
    [z = sin obliquity * sin ecliptic_longitude] satisfies [|z| <= 1] and
    [r = sqrt (1 - z^2)] is non-negative; the declination, [arctan2 z r],
    lies in [[-PI/2, PI/2]] and the right ascension,
    [2 * arctan2 y (x + r)], lies in [(-PI, PI]]. *)
Theorem right_ascension_declination_range (julian_centuries : R) :
  let x := sun_x julian_centuries in
  let y := sun_y julian_centuries in
  let z := sun_z julian_centuries in
  let r := sqrt (1 - z * z) in
  let ra := fst (_right_ascension_declination julian_centuries) in
  let dec := snd (_right_ascension_declination julian_centuries) in
  z = sin (_obliquity_star julian_centuries)
      * sin (_sun_ecliptic_longitude julian_centuries) /\
  Rabs z <= 1 /\ 0 <= r /\
  dec = Np.arctan2 z r /\ ra = 2 * Np.arctan2 y (x + r) /\
  - (PI / 2) <= dec <= PI / 2 /\
  - PI < ra <= PI.
Proof.
  intros x y z r ra dec.
  assert (Hr : r = sun_r julian_centuries).
  { unfold r, z, sun_r. f_equal. lra. }
  split; [reflexivity|]. split; [apply sun_z_bound|].
  split; [apply sqrt_pos|].
  split; [unfold dec; cbn; now rewrite Hr|].
  split; [unfold ra; cbn; now rewrite Hr|].
  split.
  - unfold dec. cbn. apply arctan2_right_half, sun_r_nonneg.
  - unfold ra. cbn. pose proof PI_RGT_0.
    destruct (sun_r_dominates julian_centuries) as [Hpos|Hzero].
    + pose proof (arctan2_pos (sun_y julian_centuries) _ Hpos). lra.
    + rewrite <- Hzero.
      rewrite (sun_y_zero_on_axis julian_centuries) by (symmetry; exact Hzero).
      rewrite arctan2_origin. lra.
Qed.

(** C10.  The guard looks at the first element of the flattened input
    only: an array whose first element is a [datetime.datetime] passes it
    whatever the other elements are (the computation goes on to the
    subtraction and never raises the invalid-date-type error), and on an
    empty array the guard itself fails with an index error. *)
Theorem guard_inspects_first_element :
  (forall d rest,
      (date_type <- first_date_type
                      (relabel_utc (Np.Array (Py.Datetime d :: rest))) ;;
       check_date_type date_type) = Py.Ok tt) /\
  (forall d rest,
      _days_from_2000 (Np.Array (Py.Datetime d :: rest))
      = (time_diff <- Py.mapM minus_reference (Py.Datetime d :: rest) ;;
         Py.Ok (_total_days (Np.Array time_diff)))) /\
  (forall d rest,
      _days_from_2000 (Np.Array (Py.Datetime d :: rest))
      <> Py.Raise Py.ValueError) /\
  (forall d x,
      _days_from_2000 (Np.Array [Py.Datetime d; Py.Float x])
      = Py.Raise Py.TypeError) /\
  first_date_type (relabel_utc (Np.Array [])) = Py.Raise Py.IndexError /\
  _days_from_2000 (Np.Array []) = Py.Raise Py.IndexError /\
  (forall lon lat,
      cos_zenith_angle (Np.Array []) lon lat = Py.Raise Py.IndexError).
Proof.
  split; [reflexivity|]. split; [exact days_from_2000_array_head|].
  split.
  { intros d rest H. apply days_from_2000_ValueError in H.
    destruct H as (v & rest' & Hr & Hv). cbn in Hr. inversion Hr; subst.
    discriminate. }
  split.
  { intros d x. rewrite days_from_2000_array_head. cbn.
    unfold Py.datetime_sub. destruct (Py.tzinfo d); reflexivity. }
  repeat split; reflexivity.
Qed.

(** * Lemmas for the further properties *)

(** ** The two-argument arctangent as a polar angle *)

Lemma arctan2_range (y x : R) : - PI < Np.arctan2 y x <= PI.
Proof.
  unfold Np.arctan2. pose proof PI_RGT_0 as Hpi.
  pose proof (atan_bound (y / x)) as Hb.
  destruct (Rlt_dec 0 x); [lra|].
  destruct (Rlt_dec x 0) as [Hx|Hx].
  - destruct (Rle_dec 0 y) as [Hy|Hy].
    + assert (Hq : y / x <= 0).
      { unfold Rdiv. assert (/ x < 0) by now apply Rinv_lt_0_compat. nra. }
      assert (atan (y / x) <= 0).
      { destruct Hq as [Hq| ->]; [|rewrite atan_0; lra].
        left. rewrite <- atan_0. now apply atan_increasing. }
      lra.
    + assert (Hq : 0 < y / x).
      { unfold Rdiv. assert (/ x < 0) by now apply Rinv_lt_0_compat. nra. }
      assert (0 < atan (y / x)).
      { rewrite <- atan_0. now apply atan_increasing. }
      lra.
  - destruct (Rlt_dec 0 y); [lra|]. destruct (Rlt_dec y 0); lra.
Qed.

Lemma sqrt_ratio (x y : R) :
  x <> 0 -> sqrt (1 + (y / x)²) = sqrt (x * x + y * y) / Rabs x.
Proof.
  intros Hx.
  assert (Ha : 0 < Rabs x) by now apply Rabs_pos_lt.
  assert (Hr : 0 <= sqrt (x * x + y * y)) by apply sqrt_pos.
  apply sqrt_lem_1.
  - pose proof (Rle_0_sqr (y / x)). lra.
  - apply Rmult_le_pos; [exact Hr | left; now apply Rinv_0_lt_compat].
  - unfold Rsqr.
    replace (sqrt (x * x + y * y) / Rabs x * (sqrt (x * x + y * y) / Rabs x))
      with (sqrt (x * x + y * y) * sqrt (x * x + y * y) / (Rabs x * Rabs x))
      by (field; lra).
    rewrite sqrt_sqrt by nra.
    replace (Rabs x * Rabs x) with (x * x).
    + field. exact Hx.
    + pose proof (Rsqr_abs x) as H. unfold Rsqr in H. exact H.
Qed.

Lemma arctan2_polar (y x : R) :
  x <> 0 \/ y <> 0 ->
  cos (Np.arctan2 y x) = x / sqrt (x * x + y * y) /\
  sin (Np.arctan2 y x) = y / sqrt (x * x + y * y).
Proof.
  intros Hxy.
  assert (Hrho : 0 < sqrt (x * x + y * y)).
  { apply sqrt_lt_R0. destruct Hxy; nra. }
  unfold Np.arctan2.
  destruct (Rlt_dec 0 x) as [Hx|Hx].
  - rewrite sin_atan, cos_atan, sqrt_ratio, Rabs_pos_eq by lra.
    split; field; lra.
  - destruct (Rlt_dec x 0) as [Hx'|Hx'].
    + assert (Ha : Rabs x = - x) by (apply Rabs_left; lra).
      destruct (Rle_dec 0 y).
      * rewrite neg_cos, neg_sin, sin_atan, cos_atan, sqrt_ratio, Ha by lra.
        split; field; lra.
      * replace (atan (y / x) - PI) with (- (- atan (y / x) + PI)) by ring.
        rewrite cos_neg, sin_neg, neg_cos, neg_sin, cos_neg, sin_neg.
        rewrite sin_atan, cos_atan, sqrt_ratio, Ha by lra.
        split; field; lra.
    + assert (x = 0) by lra. subst x.
      assert (Hy : y <> 0) by (destruct Hxy; [lra | assumption]).
      replace (0 * 0 + y * y) with (y²) in * by (unfold Rsqr; ring).
      rewrite sqrt_Rsqr_abs in *.
      destruct (Rlt_dec 0 y).
      * rewrite cos_PI2, sin_PI2, Rabs_pos_eq by lra. split; field; lra.
      * destruct (Rlt_dec y 0); [|lra].
        rewrite cos_neg, sin_neg, cos_PI2, sin_PI2, Rabs_left by lra.
        split; field; lra.
Qed.

Lemma angle_unique (a b : R) :
  - PI < a <= PI -> - PI < b <= PI ->
  cos a = cos b -> sin a = sin b -> a = b.
Proof.
  intros Ha Hb Hc Hs.
  assert (H1 : cos (a - b) = 1).
  { rewrite cos_minus, Hc, Hs. pose proof (sin2_cos2 b) as H.
    unfold Rsqr in H. lra. }
  assert (H2 : sin ((a - b) / 2) = 0).
  { replace (a - b) with (2 * ((a - b) / 2)) in H1 by field.
    rewrite cos_2a_sin in H1. nra. }
  apply sin_eq_0_0 in H2. destruct H2 as [k Hk].
  pose proof PI_RGT_0 as Hpi.
  assert (Hk1 : -1 < IZR k < 1) by (split; nra).
  assert (k = 0%Z).
  { destruct Hk1 as [Hl Hu]. apply lt_IZR in Hl, Hu. lia. }
  subst k. lra.
Qed.

(** ** The ephemeris *)

Lemma obliquity_window (c : R) :
  -1 <= c <= 1 ->
  Np.deg2rad 23.42 <= _obliquity_star c <= Np.deg2rad 23.46.
Proof.
  intros Hc. unfold _obliquity_star, Np.deg2rad.
  assert (H2 : 0 <= c ^ 2 <= 1) by (simpl; nra).
  assert (H3 : -1 <= c ^ 3 <= 1).
  { replace (c ^ 3) with (c * c ^ 2) by ring. nra. }
  assert (H4 : 0 <= c ^ 4 <= 1).
  { replace (c ^ 4) with (c ^ 2 * c ^ 2) by ring. nra. }
  assert (H5 : -1 <= c ^ 5 <= 1).
  { replace (c ^ 5) with (c * c ^ 4) by ring. nra. }
  pose proof PI_RGT_0 as Hpi.
  assert (Hk : 0 < PI / 180) by lra.
  split; apply Rmult_le_compat_r; lra.
Qed.

Lemma declination_range (c : R) :
  - (PI / 2) <= snd (_right_ascension_declination c) <= PI / 2.
Proof.
  cbn [_right_ascension_declination snd].
  apply arctan2_right_half, sun_r_nonneg.
Qed.

Lemma cos_period_Z (x : R) (k : Z) : cos (x - IZR (2 * k) * PI) = cos x.
Proof.
  rewrite !cos_sin.
  replace (PI / 2 + (x - IZR (2 * k) * PI))
    with (PI / 2 + x - IZR (2 * k) * PI) by ring.
  apply IntervalFacts.sin_period_Z.
Qed.

Lemma star_cos_zenith_turns (c lon lat : R) (k m : Z) :
  _star_cos_zenith c (lon + IZR (2 * k) * PI) (lat + IZR (2 * m) * PI)
  = _star_cos_zenith c lon lat.
Proof.
  rewrite !star_cos_zenith_unfold. unfold _local_mean_sidereal_time.
  set (g := _greenwich_mean_sidereal_time c).
  set (ra := fst (_right_ascension_declination c)).
  rewrite <- (IntervalFacts.sin_period_Z (lat + IZR (2 * m) * PI) m).
  rewrite <- (cos_period_Z (lat + IZR (2 * m) * PI) m).
  rewrite <- (cos_period_Z (g + (lon + IZR (2 * k) * PI) - ra) k).
  replace (lat + IZR (2 * m) * PI - IZR (2 * m) * PI) with lat by ring.
  replace (g + (lon + IZR (2 * k) * PI) - ra - IZR (2 * k) * PI)
    with (g + lon - ra) by ring.
  reflexivity.
Qed.

Lemma star_cos_zenith_antipode (c lon lat : R) :
  _star_cos_zenith c (lon + PI) (- lat) = - _star_cos_zenith c lon lat.
Proof.
  rewrite !star_cos_zenith_unfold. unfold _local_mean_sidereal_time.
  set (g := _greenwich_mean_sidereal_time c).
  set (ra := fst (_right_ascension_declination c)).
  replace (g + (lon + PI) - ra) with (g + lon - ra + PI) by ring.
  rewrite neg_cos, sin_neg, cos_neg. ring.
Qed.

Lemma sun_x_2002 : 0.18 <= sun_x century_2002 <= 0.19.
Proof.
  unfold sun_x, _sun_ecliptic_longitude, century_2002, Np.deg2rad.
  eapply IntervalFacts.within_bounds; [bound | vm_compute; reflexivity].
Qed.

Lemma regular_2002 : 0 < sun_x century_2002 + sun_r century_2002.
Proof.
  pose proof sun_x_2002. pose proof (sun_r_nonneg century_2002). lra.
Qed.

(** ** Arrays of datetimes *)

Lemma mapM_length {A B} (f : A -> Py.result B) (l : list A) (bs : list B) :
  Py.mapM f l = Py.Ok bs -> length bs = length l.
Proof.
  revert bs. induction l as [|a l IH]; cbn; intros bs H.
  - inversion H. reflexivity.
  - destruct (f a); cbn in H; [|discriminate].
    destruct (Py.mapM f l); cbn in H; [|discriminate].
    inversion H. cbn. f_equal. now apply IH.
Qed.

Lemma minus_reference_ok (v : Py.value) (us : Z) :
  minus_reference v = Py.Ok us -> is_aware v = true.
Proof.
  destruct v as [d| |]; cbn; try discriminate.
  unfold Py.datetime_sub. destruct (Py.tzinfo d); cbn; [reflexivity|].
  discriminate.
Qed.

Lemma mapM_minus_reference_ok (l : list Py.value) (bs : list Z) :
  Py.mapM minus_reference l = Py.Ok bs -> forallb is_aware l = true.
Proof.
  revert bs. induction l as [|v l IH]; cbn; intros bs H; [reflexivity|].
  destruct (minus_reference v) eqn:Hv; cbn in H; [|discriminate].
  destruct (Py.mapM minus_reference l) as [bs'|] eqn:Hl; cbn in H;
    [|discriminate].
  apply minus_reference_ok in Hv. rewrite Hv. cbn. now apply (IH bs').
Qed.

Lemma mapM_minus_reference_aware (ds : list Py.datetime) :
  Forall (fun d => Py.tzinfo d <> None) ds ->
  Py.mapM minus_reference (List.map Py.Datetime ds)
  = Py.Ok (List.map
             (fun d => (Py.wall_clock_us d - Py.offset_seconds d * 1000000
                        - Py.wall_clock_us REFERENCE_2000)%Z) ds).
Proof.
  induction 1 as [|d ds Hd _ IH]; cbn [List.map Py.mapM]; [reflexivity|].
  cbn [minus_reference]. destruct (Py.tzinfo d) as [off|] eqn:Htz; [|easy].
  rewrite (datetime_sub_aware d off Htz), IH. cbn [Py.bind].
  unfold Py.offset_seconds. now rewrite Htz.
Qed.

Lemma instant_julian_century (d : Py.datetime) :
  IZR (Py.wall_clock_us d - Py.offset_seconds d * 1000000
       - Py.wall_clock_us REFERENCE_2000)
  / IZR (Py.timedelta 1 0 0) / 36525.0
  = _timestamp_to_julian_century (Py.epoch_seconds d).
Proof.
  unfold _timestamp_to_julian_century, TIMESTAMP_2000, Py.epoch_seconds.
  replace (Py.timedelta 0 (Py.offset_seconds REFERENCE_2000) 0) with 0%Z
    by reflexivity.
  replace (Py.timedelta 1 0 0) with 86400000000%Z by reflexivity.
  unfold Py.timedelta.
  rewrite !minus_IZR, !plus_IZR, !mult_IZR, !plus_IZR, !mult_IZR.
  field. lra.
Qed.

(** * Further properties *)

(** X1.  The timestamp path is the affine map
    [(timestamp - 946728000) / 3155760000]: it sends the reference
    timestamp to 0, a difference of timestamps to that difference divided by
    the seconds of a Julian century, and it is undone by
    [TIMESTAMP_2000 + c * 36525 * 86400]. *)
Theorem timestamp_to_julian_century_affine :
  TIMESTAMP_2000 = 946728000 /\
  (forall ts, _timestamp_to_julian_century ts
              = (ts - 946728000) / (36525 * 86400)) /\
  (forall ts ts',
      _timestamp_to_julian_century ts' - _timestamp_to_julian_century ts
      = (ts' - ts) / (36525 * 86400)) /\
  (forall c,
      _timestamp_to_julian_century (TIMESTAMP_2000 + c * 36525 * 86400) = c) /\
  (forall ts,
      TIMESTAMP_2000 + _timestamp_to_julian_century ts * 36525 * 86400 = ts).
Proof.
  pose proof TIMESTAMP_2000_value as E.
  split; [exact E|].
  unfold _timestamp_to_julian_century. rewrite E.
  repeat split; intros; lra.
Qed.

(** X2.  For every Julian century the vector [(x, y, z)] built by
    [_right_ascension_declination] is a unit vector, and [r] is the length
    of its projection on the equatorial plane: [r * r = x * x + y * y],
    [0 <= r <= 1] and [|x| <= r]. *)
Theorem sun_vector_is_unit (julian_centuries : R) :
  let x := sun_x julian_centuries in
  let y := sun_y julian_centuries in
  let z := sun_z julian_centuries in
  let r := sun_r julian_centuries in
  x * x + y * y + z * z = 1 /\ r * r = x * x + y * y /\
  0 <= r <= 1 /\ Rabs x <= r.
Proof.
  intros x y z r.
  pose proof (sun_sphere julian_centuries) as Hs.
  pose proof (sun_r_sqr julian_centuries) as Hr.
  pose proof (sun_r_nonneg julian_centuries) as H0.
  fold x y z r in Hs, Hr, H0.
  split; [exact Hs|]. split; [exact Hr|]. split; [nra|].
  apply Rabs_le. nra.
Qed.

(** X3.  The declination, computed as [arctan2 z (sqrt (1 - z * z))], is
    the arcsine of [z = sin obliquity * sin ecliptic_longitude]; its sine is
    [z] and its cosine is [r]. *)
Theorem declination_is_arcsine (julian_centuries : R) :
  let dec := snd (_right_ascension_declination julian_centuries) in
  dec = asin (sin (_obliquity_star julian_centuries)
              * sin (_sun_ecliptic_longitude julian_centuries)) /\
  sin dec = sun_z julian_centuries /\
  cos dec = sun_r julian_centuries.
Proof.
  intros dec.
  destruct (declination_on_circle julian_centuries) as [Hs Hc].
  fold dec in Hs, Hc. split; [|split; assumption].
  change (sin (_obliquity_star julian_centuries)
          * sin (_sun_ecliptic_longitude julian_centuries))
    with (sun_z julian_centuries).
  rewrite <- Hs. symmetry. apply asin_sin.
  apply declination_range.
Qed.

(** X4.  Where [x + r] is positive, that is unless the sun is exactly on
    the negative x-axis, the half-angle form [2 * arctan2 y (x + r)] of the
    right ascension is the polar angle [arctan2 y x] of [(x, y)]. *)
Theorem right_ascension_is_polar_angle (julian_centuries : R) :
  0 < sun_x julian_centuries + sun_r julian_centuries ->
  fst (_right_ascension_declination julian_centuries)
  = Np.arctan2 (sun_y julian_centuries) (sun_x julian_centuries).
Proof.
  intros Hpos.
  set (x := sun_x julian_centuries). set (y := sun_y julian_centuries).
  set (r := sun_r julian_centuries).
  pose proof (sun_r_sqr julian_centuries) as Hr.
  pose proof (sun_r_nonneg julian_centuries) as H0.
  fold x y r in Hpos, Hr, H0.
  assert (Hrpos : 0 < r) by nra.
  assert (Hrho : sqrt (x * x + y * y) = r).
  { rewrite <- Hr. apply sqrt_square. exact H0. }
  destruct (right_ascension_on_circle julian_centuries Hpos) as [Hc Hs].
  fold x y r in Hc, Hs.
  destruct (arctan2_polar y x) as [Hc' Hs'].
  { destruct (Req_dec x 0) as [Hx|Hx]; [right|left; exact Hx].
    intros Hy. rewrite Hx, Hy in Hr. nra. }
  rewrite Hrho in Hc', Hs'.
  apply angle_unique.
  - cbn [_right_ascension_declination fst]. fold x y r.
    pose proof (arctan2_pos y (x + r) Hpos). lra.
  - apply arctan2_range.
  - now rewrite Hc, Hc'.
  - now rewrite Hs, Hs'.
Qed.

Lemma right_ascension_is_polar_angle_witness :
  fst (_right_ascension_declination century_2002)
  = Np.arctan2 (sun_y century_2002) (sun_x century_2002).
Proof.
  exact (right_ascension_is_polar_angle century_2002 regular_2002).
Defined.

(** X5.  Within a Julian century of the reference epoch the obliquity lies
    between 23.42 and 23.46 degrees, and the declination of the sun never
    exceeds the obliquity in absolute value. *)
Theorem declination_within_obliquity (julian_centuries : R) :
  -1 <= julian_centuries <= 1 ->
  let eps := _obliquity_star julian_centuries in
  let dec := snd (_right_ascension_declination julian_centuries) in
  Np.deg2rad 23.42 <= eps <= Np.deg2rad 23.46 /\
  - eps <= dec <= eps.
Proof.
  intros Hc eps dec.
  pose proof (obliquity_window julian_centuries Hc) as Hw. fold eps in Hw.
  split; [exact Hw|].
  pose proof PI_RGT_0 as Hpi. unfold Np.deg2rad in Hw.
  assert (He : 0 < eps < PI / 2) by (split; nra).
  destruct (declination_on_circle julian_centuries) as [Hs _].
  fold dec in Hs. unfold sun_z in Hs. fold eps in Hs.
  pose proof (declination_range julian_centuries) as Hd. fold dec in Hd.
  pose proof (SIN_bound (_sun_ecliptic_longitude julian_centuries)) as Hl.
  assert (Hse : 0 < sin eps) by (apply sin_gt_0; lra).
  split.
  - apply sin_incr_0; try lra. rewrite sin_neg, Hs. nra.
  - apply sin_incr_0; try lra. rewrite Hs. nra.
Qed.

Lemma declination_within_obliquity_witness :
  Np.deg2rad 23.42 <= _obliquity_star 0 <= Np.deg2rad 23.46 /\
  - _obliquity_star 0 <= snd (_right_ascension_declination 0)
  <= _obliquity_star 0.
Proof.
  apply (declination_within_obliquity 0). lra.
Defined.

(** X6.  Where [x + r] is positive the zenith combiner returns the scalar
    product of the observer's unit vector
    [(cos lat * cos L, cos lat * sin L, sin lat)], [L] being the local mean
    sidereal time, with the sun's unit vector [(x, y, z)]. *)
Theorem zenith_is_scalar_product (julian_centuries lon lat : R) :
  0 < sun_x julian_centuries + sun_r julian_centuries ->
  let L := _local_mean_sidereal_time julian_centuries lon in
  _star_cos_zenith julian_centuries lon lat
  = cos lat * cos L * sun_x julian_centuries
    + cos lat * sin L * sun_y julian_centuries
    + sin lat * sun_z julian_centuries.
Proof.
  intros Hpos L. rewrite (star_cos_zenith_reduced _ _ _ Hpos). fold L. ring.
Qed.

Lemma zenith_is_scalar_product_witness :
  _star_cos_zenith century_2002 (Np.deg2rad 120) (Np.deg2rad 360)
  = cos (Np.deg2rad 360)
    * cos (_local_mean_sidereal_time century_2002 (Np.deg2rad 120))
    * sun_x century_2002
    + cos (Np.deg2rad 360)
      * sin (_local_mean_sidereal_time century_2002 (Np.deg2rad 120))
      * sun_y century_2002
    + sin (Np.deg2rad 360) * sun_z century_2002.
Proof.
  exact (zenith_is_scalar_product century_2002 (Np.deg2rad 120)
           (Np.deg2rad 360) regular_2002).
Defined.

(** X7.  In exact arithmetic the zenith combiner, which takes radians,
    does not depend on the longitude at the poles: at latitude [PI / 2] it
    returns [z], the sine of the declination, and at latitude [- (PI / 2)]
    it returns [- z]. *)
Theorem zenith_at_the_poles (julian_centuries lon : R) :
  _star_cos_zenith julian_centuries lon (PI / 2)
  = sin (snd (_right_ascension_declination julian_centuries)) /\
  _star_cos_zenith julian_centuries lon (PI / 2) = sun_z julian_centuries /\
  _star_cos_zenith julian_centuries lon (- (PI / 2))
  = - sun_z julian_centuries.
Proof.
  rewrite !star_cos_zenith_unfold.
  destruct (declination_on_circle julian_centuries) as [Hs _].
  rewrite sin_neg, cos_neg, sin_PI2, cos_PI2, Hs.
  repeat split; ring.
Qed.

(** X8.  In exact arithmetic the zenith combiner is periodic in the
    longitude and in the latitude, both in radians: adding whole multiples
    of [2 * PI] to either changes nothing. *)
Theorem zenith_periodic_in_radians (julian_centuries lon lat : R) (k m : Z) :
  _star_cos_zenith julian_centuries
    (lon + IZR k * (2 * PI)) (lat + IZR m * (2 * PI))
  = _star_cos_zenith julian_centuries lon lat.
Proof.
  rewrite <- (star_cos_zenith_turns julian_centuries lon lat k m).
  f_equal; rewrite mult_IZR; ring.
Qed.

(** X9.  In exact arithmetic the zenith combiner returns the opposite
    value at the antipodal point: longitude plus [PI], latitude negated. *)
Theorem zenith_at_the_antipode (julian_centuries lon lat : R) :
  _star_cos_zenith julian_centuries (lon + PI) (- lat)
  = - _star_cos_zenith julian_centuries lon lat.
Proof. apply star_cos_zenith_antipode. Qed.

(** X10.  In exact arithmetic the zenith combiner is Lipschitz in the
    position: moving the observer changes the result by at most the sum of
    the changes of longitude and latitude, in radians. *)
Theorem zenith_lipschitz_in_position
  (julian_centuries lon lat lon' lat' : R) :
  Rabs (_star_cos_zenith julian_centuries lon' lat'
        - _star_cos_zenith julian_centuries lon lat)
  <= Rabs (lon' - lon) + Rabs (lat' - lat).
Proof. apply star_cos_zenith_lipschitz. Qed.

(** X11.  On a non-empty array of aware datetimes the calendar entry point
    subtracts the aware reference from each element, which honours each
    element's UTC offset: every element of the result is what the timestamp
    entry point returns at the epoch seconds of that element's instant. *)
Theorem aware_array_honours_offsets (ds : list Py.datetime) (lon lat : R) :
  ds <> [] ->
  Forall (fun d => Py.tzinfo d <> None) ds ->
  cos_zenith_angle (Np.Array (List.map Py.Datetime ds)) lon lat
  = Py.Ok (Np.Array
             (List.map
                (fun d => cos_zenith_angle_from_timestamp
                            (Py.epoch_seconds d) lon lat) ds)).
Proof.
  intros Hne Haw.
  assert (Hd : _days_from_2000 (Np.Array (List.map Py.Datetime ds))
               = (time_diff <- Py.mapM minus_reference
                                 (List.map Py.Datetime ds) ;;
                  Py.Ok (_total_days (Np.Array time_diff)))).
  { destruct ds as [|d ds]; [congruence|]. apply days_from_2000_array_head. }
  unfold cos_zenith_angle, _datetime_to_julian_century.
  rewrite Hd, (mapM_minus_reference_aware _ Haw).
  cbn [Py.bind _total_days Np.map]. do 2 f_equal.
  rewrite !List.map_map. apply List.map_ext. intros a.
  unfold cos_zenith_angle_from_timestamp.
  now rewrite instant_julian_century.
Qed.

Lemma aware_array_honours_offsets_witness :
  cos_zenith_angle
    (Np.Array (List.map Py.Datetime [noon_2000_plus12; midnight_2000_utc]))
    0 90
  = Py.Ok (Np.Array
             (List.map
                (fun d => cos_zenith_angle_from_timestamp
                            (Py.epoch_seconds d) 0 90)
                [noon_2000_plus12; midnight_2000_utc])).
Proof.
  apply aware_array_honours_offsets.
  - discriminate.
  - repeat constructor; discriminate.
Defined.

(** X12.  An array whose first element is a datetime and which holds a
    naive datetime or a value that is not a datetime makes the subtraction
    of the aware reference fail: [_days_from_2000] and the calendar entry
    point raise a type error.  In particular every array of naive datetimes
    is refused. *)
Theorem unaware_array_raises_TypeError (d : Py.datetime)
  (rest : list Py.value) (lon lat : R) :
  forallb is_aware (Py.Datetime d :: rest) = false ->
  _days_from_2000 (Np.Array (Py.Datetime d :: rest))
  = Py.Raise Py.TypeError /\
  cos_zenith_angle (Np.Array (Py.Datetime d :: rest)) lon lat
  = Py.Raise Py.TypeError.
Proof.
  intros Hf.
  assert (H : _days_from_2000 (Np.Array (Py.Datetime d :: rest))
              = Py.Raise Py.TypeError).
  { rewrite days_from_2000_array_head.
    destruct (Py.mapM minus_reference (Py.Datetime d :: rest)) as [bs|e]
      eqn:Hm.
    - apply mapM_minus_reference_ok in Hm. congruence.
    - apply mapM_minus_reference_raises in Hm. now subst e. }
  split; [exact H|]. now apply cos_zenith_angle_raises.
Qed.

Lemma unaware_array_raises_TypeError_witness :
  _days_from_2000 (Np.Array [Py.Datetime noon_2002; Py.Datetime noon_2002])
  = Py.Raise Py.TypeError /\
  cos_zenith_angle
    (Np.Array [Py.Datetime noon_2002; Py.Datetime noon_2002]) 120 360
  = Py.Raise Py.TypeError.
Proof.
  apply unaware_array_raises_TypeError. reflexivity.
Defined.

(** X13.  The calendar entry point raises an index error exactly on the
    empty array. *)
Theorem IndexError_iff_empty (time : Np.ndarray Py.value) (lon lat : R) :
  cos_zenith_angle time lon lat = Py.Raise Py.IndexError <->
  time = Np.Array [].
Proof.
  rewrite cos_zenith_angle_raises. split; [|intros ->; reflexivity].
  destruct time as [v|l].
  - destruct v; [rewrite days_from_2000_scalar|cbn|cbn]; discriminate.
  - destruct l as [|v rest]; [reflexivity|].
    destruct v as [d| |]; [|cbn; discriminate|cbn; discriminate].
    rewrite days_from_2000_array_head.
    destruct (Py.mapM minus_reference (Py.Datetime d :: rest)) eqn:Hm;
      cbn; [discriminate|].
    apply mapM_minus_reference_raises in Hm. subst. discriminate.
Qed.

(** X14.  Whenever [_days_from_2000] returns, and so whenever
    [_datetime_to_julian_century] does, the result has the shape of the
    time argument: a scalar for a scalar, and for an array an array of the
    same length. *)
Theorem days_have_shape_of_time (time : Np.ndarray Py.value)
  (out : Np.ndarray R) :
  _days_from_2000 time = Py.Ok out
  \/ _datetime_to_julian_century time = Py.Ok out ->
  match time, out with
  | Np.Scalar _, Np.Scalar _ => True
  | Np.Array l, Np.Array l' => length l' = length l
  | _, _ => False
  end.
Proof.
  assert (H : forall o, _days_from_2000 time = Py.Ok o ->
                        match time, o with
                        | Np.Scalar _, Np.Scalar _ => True
                        | Np.Array l, Np.Array l' => length l' = length l
                        | _, _ => False
                        end).
  { intros o. unfold _days_from_2000.
    destruct (first_date_type (relabel_utc time)); cbn [Py.bind];
      [|discriminate].
    destruct (check_date_type a); cbn [Py.bind]; [|discriminate].
    destruct time as [v|l].
    - destruct v as [d| |]; cbn [relabel_utc Np.mapM].
      + destruct (minus_reference _); cbn; [|discriminate].
        intros E. inversion E. exact I.
      + cbn. discriminate.
      + cbn. discriminate.
    - cbn [relabel_utc Np.mapM].
      destruct (Py.mapM minus_reference l) as [bs|] eqn:Hm; cbn;
        [|discriminate].
      intros E. inversion E. rewrite List.length_map.
      now apply mapM_length in Hm. }
  intros [Hd|Hj]; [now apply H|].
  unfold _datetime_to_julian_century in Hj.
  destruct (_days_from_2000 time) as [o|] eqn:Ho; cbn in Hj; [|discriminate].
  inversion Hj. specialize (H o eq_refl).
  destruct time, o; cbn; try exact H. now rewrite List.length_map.
Qed.

Lemma days_have_shape_of_time_witness :
  match Np.Scalar (Py.Datetime noon_2002),
        Np.Scalar
          (IZR (Py.wall_clock_us noon_2002 - Py.wall_clock_us REFERENCE_2000)
           / IZR 86400000000)
  with
  | Np.Scalar _, Np.Scalar _ => True
  | Np.Array l, Np.Array l' => length l' = length l
  | _, _ => False
  end.
Proof.
  exact (days_have_shape_of_time _ _
           (or_introl (days_from_2000_scalar noon_2002))).
Defined.

(** X15.  In exact arithmetic, for a latitude between [- (PI / 2)] and
    [PI / 2] radians the zenith combiner stays, whatever the longitude,
    between [- cos (lat + dec)] and [cos (lat - dec)], [dec] being the
    declination: the values at hour angle [PI] and at hour angle 0. *)
Theorem zenith_between_midnight_and_noon (julian_centuries lon lat : R) :
  - (PI / 2) <= lat <= PI / 2 ->
  let dec := snd (_right_ascension_declination julian_centuries) in
  - cos (lat + dec)
  <= _star_cos_zenith julian_centuries lon lat
  <= cos (lat - dec).
Proof.
  intros Hlat dec. rewrite star_cos_zenith_unfold. fold dec.
  set (h := _local_mean_sidereal_time julian_centuries lon
            - fst (_right_ascension_declination julian_centuries)).
  assert (Hl : 0 <= cos lat) by (apply cos_ge_0; lra).
  assert (Hd : 0 <= cos dec).
  { destruct (declination_on_circle julian_centuries) as [_ Hc].
    fold dec in Hc. rewrite Hc. apply sun_r_nonneg. }
  pose proof (COS_bound h) as Hh.
  assert (Hp : 0 <= cos lat * cos dec) by now apply Rmult_le_pos.
  rewrite cos_plus, cos_minus. split; nra.
Qed.

Lemma zenith_between_midnight_and_noon_witness :
  - cos (0 + snd (_right_ascension_declination 0))
  <= _star_cos_zenith 0 0 0
  <= cos (0 - snd (_right_ascension_declination 0)).
Proof.
  apply (zenith_between_midnight_and_noon 0 0 0).
  pose proof PI_RGT_0. lra.
Defined.
